(** * Event digest pipeline: a shallow embedding of the aggregation worker,
      the envelope validator and the endpoints of the Event API.

    Sources embedded here:
    - [scripts/digest-worker.ts]: [formatTime], [aggregateLocationEvents],
      [buildDigestMessage], [generateDigest], [buildOpenClawPayload], [main];
    - [src/validation.js]: [UUID_V4_REGEX], [isIsoDateString],
      [validateEventEnvelope];
    - [src/app.js]: [readJsonBody], [createHandler]; [src/db.js]:
      [InMemoryEventRepository];
    - [src/app.ts]: the [onRequest] hook of [buildApp];
    - [src/routes/events.ts]: the handlers of [POST /events/process],
      [POST /digests] and [POST /digests/:digestId/sent] with their schemas.

    JavaScript strings are modelled as [string] (UTF-8 bytes), integral
    JavaScript numbers as [Z] inside [number], arrays as [list], objects that
    are mutated through an alias as a cell of the array that stores them, a
    table with a unique key as a finite map. *)

From Stdlib Require Import ZArith Lia Ascii String.
From stdpp Require Import base list strings sorting pretty gmap.

Open Scope Z_scope.

#[local] Set Warnings "-clear-no-such-hyp".

(** ** JavaScript numbers, as far as the sources use them *)

(** The sources only compute with integral numbers (epoch milliseconds,
    counts, minutes) and with the three non-finite values.  A Number is an
    IEEE 754 double: every integer up to 2^53 in magnitude is one, and the
    result of [-] and of [/] is the double nearest to the exact result, ties
    to the even mantissa.  [Num z] holds an integer that is a double. *)
Inductive number : Type :=
  | Num (z : Z)
  | NaN
  | PosInf
  | NegInf.

(** The integer nearest to [num / den] ([den] positive), ties to the even
    one. *)
Definition roundHalfEven (num den : Z) : Z :=
  let q := num / den in
  let r := num mod den in
  if 2 * r <? den then q
  else if den <? 2 * r then q + 1
  else if Z.even q then q else q + 1.

(** The exponent of the double nearest to the nonzero [num / den] ([den]
    positive): the [e] with 2^52 <= |num / den| / 2^e < 2^53, and at least
    -1074, the exponent of the subnormal numbers. *)
Definition doubleExponent (num den : Z) : Z :=
  let k := Z.log2 (Z.abs num) - Z.log2 den in
  let below :=
    if 0 <=? k then Z.abs num <? den * 2 ^ k else Z.abs num * 2 ^ (- k) <? den in
  Z.max ((if below then k - 1 else k) - 52) (-1074).

(** The Number value for the integer [x]: [x] itself up to 2^53, beyond that
    [x] rounded to 53 significant bits. *)
Definition toNumber (x : Z) : number :=
  if Z.abs x <=? 2 ^ 53 then Num x
  else
    let e := doubleExponent x 1 in
    let r := roundHalfEven x (2 ^ e) * 2 ^ e in
    if 2 ^ 1024 <=? Z.abs r then (if 0 <? x then PosInf else NegInf) else Num r.

(** [a - b] *)
Definition number_sub (a b : number) : number :=
  match a, b with
  | Num x, Num y => toNumber (x - y)
  | NaN, _ | _, NaN => NaN
  | PosInf, PosInf | NegInf, NegInf => NaN
  | PosInf, _ | _, NegInf => PosInf
  | NegInf, _ | _, PosInf => NegInf
  end.

(** [Math.round(a / d)] for a positive integral divisor [d]: the quotient is
    the double nearest to [a / d], of value [m * 2^e]; [Math.round] returns
    the nearest integer, ties toward +Infinity, that is [floor (v + 1/2)]. *)
Definition Math_round_div (a : number) (d : Z) : number :=
  match a with
  | Num x =>
      if x =? 0 then Num 0
      else
        let e := doubleExponent x d in
        if 0 <=? e then Num (roundHalfEven x (d * 2 ^ e) * 2 ^ e)
        else
          let m := roundHalfEven (x * 2 ^ (- e)) d in
          Num ((2 * m + 2 ^ (- e)) / (2 * 2 ^ (- e)))
  | other => other
  end.

(** [Math.min(...xs)] and [Math.max(...xs)]: NaN if any argument is NaN,
    +Infinity (resp. -Infinity) for no argument.  (The engine's bound on the
    number of spread arguments is not modelled; a batch holds at most 500
    events.) *)
Definition number_min2 (a b : number) : number :=
  match a, b with
  | NaN, _ | _, NaN => NaN
  | NegInf, _ | _, NegInf => NegInf
  | PosInf, x | x, PosInf => x
  | Num x, Num y => Num (Z.min x y)
  end.

Definition number_max2 (a b : number) : number :=
  match a, b with
  | NaN, _ | _, NaN => NaN
  | PosInf, _ | _, PosInf => PosInf
  | NegInf, x | x, NegInf => x
  | Num x, Num y => Num (Z.max x y)
  end.

Definition Math_min (xs : list number) : number := foldr number_min2 PosInf xs.
Definition Math_max (xs : list number) : number := foldr number_max2 NegInf xs.

(** [x > 0] *)
Definition number_gt0 (a : number) : bool :=
  match a with
  | Num x => 0 <? x
  | PosInf => true
  | NaN | NegInf => false
  end.

(** [n.toString()] (integers below 10^21 print in plain decimal). *)
Definition Number_toString (a : number) : string :=
  match a with
  | Num x => pretty x
  | NaN => "NaN"
  | PosInf => "Infinity"
  | NegInf => "-Infinity"
  end.

(** ** Completions: a call returns normally or throws *)

Inductive completion (A : Type) : Type :=
  | Normal (a : A)
  | Throw (error : string).
Arguments Normal {A} a.
Arguments Throw {A} error.

(** ** Strings *)

Fixpoint repeat_to (n : nat) (fill cur : list ascii) : list ascii :=
  match n with
  | O => []
  | S n' =>
      match cur with
      | c :: cur' => c :: repeat_to n' fill cur'
      | [] =>
          match fill with
          | c :: fill' => c :: repeat_to n' fill fill'
          | [] => []
          end
      end
  end.

(** [s.padStart(targetLength, fill)] *)
Definition padStart (targetLength : nat) (fill : string) (s : string) : string :=
  if (targetLength <=? String.length s)%nat then s
  else
    string_of_list_ascii
      (repeat_to (targetLength - String.length s)
         (list_ascii_of_string fill) (list_ascii_of_string fill)) +:+ s.

(** [parts.join(sep)] on an array of strings *)
Fixpoint Array_join (sep : string) (parts : list string) : string :=
  match parts with
  | [] => ""
  | [p] => p
  | p :: rest => p +:+ sep +:+ Array_join sep rest
  end.

(** ** The Date interface used by the sources

    The sources reach the clock arithmetic only through [new Date(s)],
    [getTime], [getHours], [getMinutes] (local time zone of the process) and
    [toISOString].  The interface is kept abstract; [IsoDate] below is an
    instance for ISO-8601 strings with an explicit offset. *)
Class DateAPI : Type := {
  (** [Date.parse(s)]: epoch milliseconds, [None] for NaN *)
  Date_parse : string -> option Z;
  (** hours and minutes of a time value in the local time zone *)
  Date_localHours : Z -> Z;
  Date_localMinutes : Z -> Z;
  (** [toISOString] of a valid time value *)
  Date_isoString : Z -> string
}.

(** ** Types of digest-worker.ts *)

(** The fields of a location payload that the worker reads. *)
Module LocationPayload.
Record t : Type := mk { event : string; place_id : string }.
End LocationPayload.

Module RawEvent.
Record t : Type := mk {
  event_id : string;
  type : string;
  ts : string;
  payload : LocationPayload.t;
  device_id : option string;
  processed_at : option string
}.
End RawEvent.

Module StaySegment.
Record t : Type := mk {
  place_id : string;
  enter_at : string;
  exit_at : option string;
  duration_min : option number
}.
End StaySegment.

Module DigestPayload.
Record t : Type := mk {
  type : string;
  segments : list StaySegment.t;
  period_start : string;
  period_end : string;
  event_ids : list string
}.
End DigestPayload.

Module DigestResult.
Record t : Type := mk {
  digest_id : string;
  message : string;
  payload : DigestPayload.t
}.
End DigestResult.

(** The variables of the loop.  [currentSegment] is a reference to an object
    that is also stored in [segments]: it is modelled by the index of that
    cell, so that an assignment through [currentSegment] updates the array
    element, as it does in the source. *)
Module Loop.
Record t : Type := mk {
  segments : list StaySegment.t;
  eventIds : list string;
  currentSegment : option nat
}.
End Loop.

(** The result [{ segments, eventIds }] of [aggregateLocationEvents]. *)
Module Aggregated.
Record t : Type := mk {
  segments : list StaySegment.t;
  eventIds : list string
}.
End Aggregated.

(** The request body built by [buildOpenClawPayload]. *)
Module OpenClawPayload.
Record t : Type := mk {
  message : string;
  name : string;
  wakeMode : string;
  deliver : bool;
  channel : string
}.
End OpenClawPayload.

Section DigestWorker.
Context {date : DateAPI}.

(** TimeClip: a time value is valid up to 8.64e15 ms from the epoch. *)
Definition TimeClip (ms : Z) : option Z :=
  if Z.abs ms <=? 8640000000000000 then Some ms else None.

(** [new Date(isoStr)]: the time value of the Date object, [None] for an
    Invalid Date. *)
Definition Date_ofString (isoStr : string) : option Z :=
  Date_parse isoStr ≫= TimeClip.

(** [new Date(value)] for a number. *)
Definition Date_ofNumber (value : number) : option Z :=
  match value with
  | Num ms => TimeClip ms
  | _ => None
  end.

(** [d.getTime()] *)
Definition Date_getTime (d : option Z) : number :=
  match d with Some ms => Num ms | None => NaN end.

(** [new Date(isoStr).getTime()] *)
Definition getTime (isoStr : string) : number :=
  Date_getTime (Date_ofString isoStr).

Definition getHours (d : option Z) : number :=
  match d with Some ms => Num (Date_localHours ms) | None => NaN end.

Definition getMinutes (d : option Z) : number :=
  match d with Some ms => Num (Date_localMinutes ms) | None => NaN end.

(** [d.toISOString()] throws a RangeError on an Invalid Date. *)
Definition toISOString (d : option Z) : completion string :=
  match d with
  | Some ms => Normal (Date_isoString ms)
  | None => Throw "RangeError: Invalid time value"
  end.

(** ** Helpers *)

Definition formatTime (isoStr : string) : string :=
  let d := Date_ofString isoStr in
  let h := padStart 2 "0" (Number_toString (getHours d)) in
  let m := padStart 2 "0" (Number_toString (getMinutes d)) in
  h +:+ ":" +:+ m.

(** ** Core logic: aggregateLocationEvents *)

(** The comparator handed to [sort]:
    [new Date(a.ts).getTime() - new Date(b.ts).getTime()]. *)
Definition compareTs (a b : RawEvent.t) : number :=
  number_sub (getTime (RawEvent.ts a)) (getTime (RawEvent.ts b)).

(** [Array.prototype.sort(cmp)] is stable: [b] is moved in front of [a] only
    when [cmp a b > 0] (a NaN result counts as +0).  For a consistent
    comparator every stable sort returns the same array; it is computed here
    by insertion from the right.  (With an inconsistent comparator, here one
    that meets an Invalid Date, the order is left to the engine.) *)
Fixpoint sort_insert {A} (cmp : A -> A -> number) (x : A) (l : list A) : list A :=
  match l with
  | [] => [x]
  | y :: l' => if number_gt0 (cmp x y) then y :: sort_insert cmp x l' else x :: l
  end.

Definition Array_sort {A} (cmp : A -> A -> number) (l : list A) : list A :=
  foldr (sort_insert cmp) [] l.

(** [events.filter(e => e.type === "location").sort(...)] *)
Definition locationEvents (events : list RawEvent.t) : list RawEvent.t :=
  Array_sort compareTs
    (List.filter (fun e => String.eqb (RawEvent.type e) "location") events).

(** [currentSegment.exit_at = ts; currentSegment.duration_min =
    Math.round((exitTime - enterTime) / 60000)] *)
Definition closeSegment (seg : StaySegment.t) (ts : string) : StaySegment.t :=
  let enterTime := getTime (StaySegment.enter_at seg) in
  let exitTime := getTime ts in
  StaySegment.mk (StaySegment.place_id seg) (StaySegment.enter_at seg) (Some ts)
    (Some (Math_round_div (number_sub exitTime enterTime) 60000)).

(** The object a fresh segment literal [{place_id, enter_at: ts, exit_at: null,
    duration_min: null}] denotes. *)
Definition openSegment (place_id ts : string) : StaySegment.t :=
  StaySegment.mk place_id ts None None.

(** The object [currentSegment] refers to, if it is not null. *)
Definition deref (st : Loop.t) : option (nat * StaySegment.t) :=
  match Loop.currentSegment st with
  | Some i =>
      match Loop.segments st !! i with
      | Some seg => Some (i, seg)
      | None => None
      end
  | None => None
  end.

(** One iteration of [for (const event of locationEvents)]. *)
Definition loop_body (st : Loop.t) (event : RawEvent.t) : Loop.t :=
  let payload := RawEvent.payload event in
  let place := LocationPayload.place_id payload in
  let ts := RawEvent.ts event in
  let eventIds := Loop.eventIds st ++ [RawEvent.event_id event] in
  let segments := Loop.segments st in
  if String.eqb (LocationPayload.event payload) "enter" then
    let segments :=
      match deref st with
      | Some (i, cur) =>
          match StaySegment.exit_at cur with
          | None => <[i := closeSegment cur ts]> segments
          | Some _ => segments
          end
      | None => segments
      end in
    Loop.mk (segments ++ [openSegment place ts]) eventIds (Some (length segments))
  else if String.eqb (LocationPayload.event payload) "dwell" then
    match deref st with
    | Some (i, cur) =>
        if negb (String.eqb (StaySegment.place_id cur) place) then
          Loop.mk (segments ++ [openSegment place ts]) eventIds (Some (length segments))
        else Loop.mk segments eventIds (Loop.currentSegment st)
    | None =>
        Loop.mk (segments ++ [openSegment place ts]) eventIds (Some (length segments))
    end
  else if String.eqb (LocationPayload.event payload) "exit" then
    match deref st with
    | Some (i, cur) =>
        if String.eqb (StaySegment.place_id cur) place then
          Loop.mk (<[i := closeSegment cur ts]> segments) eventIds None
        else
          Loop.mk (segments ++ [StaySegment.mk place ts (Some ts) (Some (Num 0))])
            eventIds (Loop.currentSegment st)
    | None =>
        Loop.mk (segments ++ [StaySegment.mk place ts (Some ts) (Some (Num 0))])
          eventIds (Loop.currentSegment st)
    end
  else Loop.mk segments eventIds (Loop.currentSegment st).

Definition loop (evs : list RawEvent.t) (st : Loop.t) : Loop.t :=
  foldl loop_body st evs.

(** [aggregateLocationEvents(events)] *)
Definition aggregateLocationEvents (events : list RawEvent.t) : Aggregated.t :=
  let locationEvents := locationEvents events in
  if (length locationEvents =? 0)%nat then Aggregated.mk [] []
  else
    let st := loop locationEvents (Loop.mk [] [] None) in
    Aggregated.mk (Loop.segments st) (Loop.eventIds st).

(** ** buildDigestMessage *)

(** Truthiness of a [string | null] value: null and the empty string are falsy. *)
Definition truthy (v : option string) : bool :=
  match v with
  | Some s => negb (String.eqb s "")
  | None => false
  end.

(** [a !== b] for a [string | null] and a string. *)
Definition strict_ne (a : option string) (b : string) : bool :=
  match a with
  | Some s => negb (String.eqb s b)
  | None => true
  end.

(** The callback of [segments.map(...)]. *)
Definition renderSegment (seg : StaySegment.t) : string :=
  let enter := formatTime (StaySegment.enter_at seg) in
  if truthy (StaySegment.exit_at seg)
     && strict_ne (StaySegment.exit_at seg) (StaySegment.enter_at seg) then
    let exit := formatTime (default "" (StaySegment.exit_at seg)) in
    enter +:+ "-" +:+ exit +:+ " " +:+ StaySegment.place_id seg
  else enter +:+ " " +:+ StaySegment.place_id seg +:+ "到着".

Definition buildDigestMessage (segments : list StaySegment.t) : string :=
  if (length segments =? 0)%nat then "[LocationDigest] イベントなし"
  else
    let parts := map renderSegment segments in
    "[LocationDigest] " +:+ Array_join " → " parts.

(** ** generateDigest *)

Definition countType (ty : string) (events : list RawEvent.t) : nat :=
  length (List.filter (fun e => String.eqb (RawEvent.type e) ty) events).

(** [uuid] is the value [generateUUID()] returns for this call. *)
Definition generateDigest (uuid : string) (events : list RawEvent.t)
  : completion (option DigestResult.t) :=
  if (length events =? 0)%nat then Normal None
  else
    let allEventIds := map RawEvent.event_id events in
    let segments := Aggregated.segments (aggregateLocationEvents events) in
    let nonLocationEvents :=
      List.filter (fun e => negb (String.eqb (RawEvent.type e) "location")) events in
    let emailCount := countType "email" nonLocationEvents in
    let todoCount := countType "todo" nonLocationEvents in
    let vitalCount := countType "vital" nonLocationEvents in
    let part (label : string) (n : nat) : list string :=
      if (0 <? n)%nat then [label +:+ Number_toString (Num (Z.of_nat n)) +:+ "件"]
      else [] in
    let nonLocationSummaryParts :=
      part "メール" emailCount ++ part "タスク変更" todoCount
        ++ part "バイタル" vitalCount in
    let locationMessage := buildDigestMessage segments in
    let message :=
      if (0 <? length nonLocationSummaryParts)%nat
      then locationMessage +:+ " | " +:+ Array_join ", " nonLocationSummaryParts
      else locationMessage in
    let timestamps := map (fun e => getTime (RawEvent.ts e)) events in
    match toISOString (Date_ofNumber (Math_min timestamps)) with
    | Throw err => Throw err
    | Normal periodStart =>
        match toISOString (Date_ofNumber (Math_max timestamps)) with
        | Throw err => Throw err
        | Normal periodEnd =>
            Normal (Some (DigestResult.mk uuid message
              (DigestPayload.mk "location" segments periodStart periodEnd allEventIds)))
        end
    end.

(** ** buildOpenClawPayload *)

Definition buildOpenClawPayload (digest : DigestResult.t) : OpenClawPayload.t :=
  OpenClawPayload.mk
    ("[digest:" +:+ DigestResult.digest_id digest +:+ "] " +:+ DigestResult.message digest)
    "EventDigest" "now" true "last".

(** ** Notions used to state the properties *)

(** A timestamp string is valid when [new Date(s)] is not an Invalid Date. *)
Definition validDate (s : string) : Prop := is_Some (Date_ofString s).

(** A segment is open when its [exit_at] is null. *)
Definition isOpen (seg : StaySegment.t) : bool :=
  match StaySegment.exit_at seg with None => true | Some _ => false end.

(** The degenerate instant segment emitted by an unmatched exit. *)
Definition isInstant (seg : StaySegment.t) : Prop :=
  StaySegment.exit_at seg = Some (StaySegment.enter_at seg)
  ∧ StaySegment.duration_min seg = Some (Num 0).

(** Whenever [currentSegment] is not null it refers to a cell of [segments],
    and the segment stored there is open. *)
Definition current_open (st : Loop.t) : Prop :=
  match Loop.currentSegment st with
  | Some i => ∃ cur, Loop.segments st !! i = Some cur ∧ StaySegment.exit_at cur = None
  | None => True
  end.

(** The state of the scan when no dwell has switched places: the only open
    segment is the one [currentSegment] refers to, its place is the tracked
    one, and only instant segments follow it. *)
Definition one_open (st : Loop.t) (tracked : option string) : Prop :=
  current_open st
  ∧ tracked = (λ p, StaySegment.place_id p.2) <$> deref st
  ∧ (∀ j seg, Loop.segments st !! j = Some seg →
       Loop.currentSegment st ≠ Some j → StaySegment.exit_at seg ≠ None)
  ∧ (∀ i j seg, Loop.currentSegment st = Some i → (i < j)%nat →
       Loop.segments st !! j = Some seg → isInstant seg).

(** Order of two events by the instants of their [ts], both valid. *)
Definition tsLe (a b : RawEvent.t) : Prop :=
  ∃ ta tb, Date_ofString (RawEvent.ts a) = Some ta
    ∧ Date_ofString (RawEvent.ts b) = Some tb ∧ ta <= tb.



(** "At most one open segment, and when one exists it is the last segment." *)
Definition at_most_one_open_and_last (segs : list StaySegment.t) : bool :=
  let opens := List.filter isOpen segs in
  (length opens <=? 1)%nat
  && match opens with
     | [] => true
     | _ => match last segs with Some seg => isOpen seg | None => false end
     end.

(** The place of the open segment as the transition rules of the engine
    track it: enter(P) and a bootstrapping dwell(P) open P, a matching
    exit(P) clears it. *)
Definition trackOpen (open : option string) (e : RawEvent.t) : option string :=
  let kind := LocationPayload.event (RawEvent.payload e) in
  let P := LocationPayload.place_id (RawEvent.payload e) in
  if String.eqb kind "enter" then Some P
  else if String.eqb kind "dwell" then
    match open with
    | Some Q => if String.eqb Q P then open else Some P
    | None => Some P
    end
  else if String.eqb kind "exit" then
    match open with
    | Some Q => if String.eqb Q P then None else open
    | None => None
    end
  else open.

(** A dwell(P) that arrives while a segment of another place is open. *)
Definition dwellSwitches (open : option string) (e : RawEvent.t) : bool :=
  String.eqb (LocationPayload.event (RawEvent.payload e)) "dwell"
  && match open with
     | Some Q => negb (String.eqb Q (LocationPayload.place_id (RawEvent.payload e)))
     | None => false
     end.

(** No event of the sequence is such a dwell. *)
Fixpoint noDwellSwitch (open : option string) (evs : list RawEvent.t) : bool :=
  match evs with
  | [] => true
  | e :: evs' => negb (dwellSwitches open e) && noDwellSwitch (trackOpen open e) evs'
  end.


(** The rendering rule in the words of the specification: a segment has a
    "non-open, non-zero-span close" when [exit_at] is not null and the span
    [exit_at - enter_at] is not zero. *)
Definition hasNonZeroSpanClose (seg : StaySegment.t) : bool :=
  match StaySegment.exit_at seg with
  | None => false
  | Some exit =>
      match number_sub (getTime exit) (getTime (StaySegment.enter_at seg)) with
      | Num span => negb (span =? 0)
      | _ => true
      end
  end.

(** The timestamps of a segment are valid and written canonically: a close at
    the instant of the enter is written with the same string (as is the case
    for timestamps that all come out of [toISOString]). *)
Definition canonicalSegment (seg : StaySegment.t) : Prop :=
  ∀ exit, StaySegment.exit_at seg = Some exit →
    exit ≠ ""
    ∧ ∃ a b, Date_ofString (StaySegment.enter_at seg) = Some a
        ∧ Date_ofString exit = Some b
        ∧ (a = b → exit = StaySegment.enter_at seg).

Definition renderRange (seg : StaySegment.t) (exit : string) : string :=
  formatTime (StaySegment.enter_at seg) +:+ "-" +:+ formatTime exit +:+ " "
    +:+ StaySegment.place_id seg.

Definition renderArrival (seg : StaySegment.t) : string :=
  formatTime (StaySegment.enter_at seg) +:+ " " +:+ StaySegment.place_id seg +:+ "到着".

Definition spec_renderSegment (seg : StaySegment.t) : string :=
  if hasNonZeroSpanClose seg
  then renderRange seg (default "" (StaySegment.exit_at seg))
  else renderArrival seg.

Definition spec_buildDigestMessage (segments : list StaySegment.t) : string :=
  match segments with
  | [] => "[LocationDigest] イベントなし"
  | _ => "[LocationDigest] " +:+ Array_join " → " (map spec_renderSegment segments)
  end.

End DigestWorker.

(** ** An instance of the Date interface

    Time strings in the extended ISO-8601 format
    [YYYY-MM-DDTHH:mm:ss(.sss)?(Z|+HH:mm|-HH:mm)] with fields in range; every
    other string is an Invalid Date here.  The local time zone is fixed to
    UTC+09:00, the zone of the repository's examples. *)
Module IsoDate.

Definition digit (c : ascii) : option Z :=
  let n := Z.of_nat (nat_of_ascii c) in
  if (48 <=? n) && (n <=? 57) then Some (n - 48) else None.

(** Reads exactly [n] decimal digits. *)
Fixpoint digits (n : nat) (acc : Z) (cs : list ascii) : option (Z * list ascii) :=
  match n with
  | O => Some (acc, cs)
  | S n' =>
      match cs with
      | c :: cs' =>
          match digit c with
          | Some d => digits n' (10 * acc + d) cs'
          | None => None
          end
      | [] => None
      end
  end.

Definition expect (c : ascii) (cs : list ascii) : option (list ascii) :=
  match cs with
  | c' :: cs' => if Ascii.eqb c c' then Some cs' else None
  | [] => None
  end.

Definition isLeap (y : Z) : bool :=
  ((y mod 4 =? 0) && negb (y mod 100 =? 0)) || (y mod 400 =? 0).

Definition daysInMonth (y m : Z) : Z :=
  if m =? 2 then (if isLeap y then 29 else 28)
  else if (m =? 4) || (m =? 6) || (m =? 9) || (m =? 11) then 30 else 31.

(** Days from 1970-01-01 to the civil date [y-m-d] (proleptic Gregorian). *)
Definition daysFromCivil (y m d : Z) : Z :=
  let y' := if m <=? 2 then y - 1 else y in
  let era := y' / 400 in
  let yoe := y' - era * 400 in
  let doy := (153 * (if 2 <? m then m - 3 else m + 9) + 2) / 5 + d - 1 in
  let doe := yoe * 365 + yoe / 4 - yoe / 100 + doy in
  era * 146097 + doe - 719468.

(** The civil date [(y, m, d)] of a day number. *)
Definition civilFromDays (days : Z) : Z * Z * Z :=
  let z := days + 719468 in
  let era := z / 146097 in
  let doe := z - era * 146097 in
  let yoe := (doe - doe / 1460 + doe / 36524 - doe / 146096) / 365 in
  let doy := doe - (365 * yoe + yoe / 4 - yoe / 100) in
  let mp := (5 * doy + 2) / 153 in
  let d := doy - (153 * mp + 2) / 5 + 1 in
  let m := if mp <? 10 then mp + 3 else mp - 9 in
  ((yoe + era * 400 + (if m <=? 2 then 1 else 0)), m, d).

Definition parseOffset (cs : list ascii) : option Z :=
  match cs with
  | [c] => if Ascii.eqb c "Z" then Some 0 else None
  | sign :: rest =>
      match digits 2 0 rest with
      | Some (oh, rest1) =>
          match expect ":" rest1 with
          | Some rest2 =>
              match digits 2 0 rest2 with
              | Some (om, []) =>
                  if (oh <=? 23) && (om <=? 59) then
                    if Ascii.eqb sign "+" then Some (oh * 60 + om)
                    else if Ascii.eqb sign "-" then Some (- (oh * 60 + om))
                    else None
                  else None
              | _ => None
              end
          | None => None
          end
      | None => None
      end
  | [] => None
  end.

Definition parseFraction (cs : list ascii) : option (Z * list ascii) :=
  match cs with
  | c :: rest => if Ascii.eqb c "." then digits 3 0 rest else Some (0, cs)
  | [] => Some (0, cs)
  end.

(** The year: four digits, or a sign and six digits (an expanded year);
    "-000000" is not a year. *)
Definition parseYear (cs : list ascii) : option (Z * list ascii) :=
  match cs with
  | c :: rest =>
      if Ascii.eqb c "+" then digits 6 0 rest
      else if Ascii.eqb c "-" then
        match digits 6 0 rest with
        | Some (y, rest') => if y =? 0 then None else Some (- y, rest')
        | None => None
        end
      else digits 4 0 cs
  | [] => None
  end.

Definition parse (s : string) : option Z :=
  y ← parseYear (list_ascii_of_string s);
  r ← expect "-" y.2;
  mo ← digits 2 0 r;
  r ← expect "-" mo.2;
  d ← digits 2 0 r;
  r ← expect "T" d.2;
  h ← digits 2 0 r;
  r ← expect ":" h.2;
  mi ← digits 2 0 r;
  r ← expect ":" mi.2;
  sec ← digits 2 0 r;
  ms ← parseFraction sec.2;
  off ← parseOffset ms.2;
  if (1 <=? mo.1) && (mo.1 <=? 12) && (1 <=? d.1) && (d.1 <=? daysInMonth y.1 mo.1)
     && (h.1 <=? 23) && (mi.1 <=? 59) && (sec.1 <=? 59)
  then Some (((daysFromCivil y.1 mo.1 d.1 * 24 + h.1) * 60 + mi.1 - off) * 60000
             + sec.1 * 1000 + ms.1)
  else None.

Definition localOffsetMs : Z := 9 * 3600000.

Definition localHours (t : Z) : Z := ((t + localOffsetMs) / 3600000) mod 24.
Definition localMinutes (t : Z) : Z := ((t + localOffsetMs) / 60000) mod 60.

Definition pad (n : nat) (z : Z) : string := padStart n "0" (pretty z).

Definition isoString (t : Z) : string :=
  let '(y, m, d) := civilFromDays (t / 86400000) in
  let year :=
    if (0 <=? y) && (y <=? 9999) then pad 4 y
    else (if y <? 0 then "-" else "+") +:+ pad 6 (Z.abs y) in
  year +:+ "-" +:+ pad 2 m +:+ "-" +:+ pad 2 d +:+ "T"
    +:+ pad 2 ((t / 3600000) mod 24) +:+ ":" +:+ pad 2 ((t / 60000) mod 60)
    +:+ ":" +:+ pad 2 ((t / 1000) mod 60) +:+ "." +:+ pad 3 (t mod 1000) +:+ "Z".

#[export] Instance api : DateAPI :=
  {| Date_parse := parse;
     Date_localHours := localHours;
     Date_localMinutes := localMinutes;
     Date_isoString := isoString |}.

End IsoDate.


(** ** JSON values, as [JSON.parse] returns them *)

#[local] Set Warnings "-register-all".

(** An object holds its own properties in insertion order, each key once
    ([JSON.parse] keeps the last of duplicated keys); its prototype is
    [Object.prototype], that of an array [Array.prototype].  Numbers are the
    integral ones; the sources never look inside a number of a request. *)
Inductive json : Type :=
  | JNull
  | JBool (b : bool)
  | JNumber (n : Z)
  | JString (s : string)
  | JArray (items : list json)
  | JObject (fields : list (string * json)).

(** The result of a property access: [None] is [undefined]. *)
Definition value : Type := option json.

Fixpoint ownProperty (key : string) (fields : list (string * json)) : value :=
  match fields with
  | [] => None
  | (k, v) :: rest => if String.eqb k key then Some v else ownProperty key rest
  end.

(** [body.key] for a key that no prototype defines. *)
Definition getProp (body : json) (key : string) : value :=
  match body with
  | JObject fields => ownProperty key fields
  | _ => None
  end.

Definition typeof (v : value) : string :=
  match v with
  | None => "undefined"
  | Some (JBool _) => "boolean"
  | Some (JNumber _) => "number"
  | Some (JString _) => "string"
  | Some JNull | Some (JArray _) | Some (JObject _) => "object"
  end.

(** ToBoolean *)
Definition truthyValue (v : value) : bool :=
  match v with
  | None | Some JNull => false
  | Some (JBool b) => b
  | Some (JNumber n) => negb (n =? 0)
  | Some (JString s) => negb (String.eqb s "")
  | Some (JArray _) | Some (JObject _) => true
  end.

Definition Array_isArray (v : value) : bool :=
  match v with Some (JArray _) => true | _ => false end.

(** [a ?? b] *)
Definition nullish (a : value) (b : json) : json :=
  match a with
  | None | Some JNull => b
  | Some v => v
  end.

Definition typeError : string := "TypeError: Cannot convert object to primitive value".

(** ToString of a parsed JSON value.  An array converts through
    [Array.prototype.join]: its elements, null as the empty string, separated
    by commas.  A plain object converts through the [toString] it inherits,
    unless an own property [toString] shadows it: an own property parsed from
    JSON is never callable, the inherited [valueOf] returns the object itself,
    and the conversion throws a TypeError. *)
Fixpoint ToString (v : json) : completion string :=
  match v with
  | JNull => Normal "null"
  | JBool true => Normal "true"
  | JBool false => Normal "false"
  | JNumber n => Normal (Number_toString (Num n))
  | JString s => Normal s
  | JArray items =>
      (fix join (l : list json) : completion string :=
         let element (x : json) : completion string :=
           match x with JNull => Normal "" | _ => ToString x end in
         match l with
         | [] => Normal ""
         | [x] => element x
         | x :: rest =>
             match element x with
             | Throw err => Throw err
             | Normal s =>
                 match join rest with
                 | Throw err => Throw err
                 | Normal r => Normal (s +:+ "," +:+ r)
                 end
             end
         end) items
  | JObject fields =>
      match ownProperty "toString" fields with
      | Some _ => Throw typeError
      | None => Normal "[object Object]"
      end
  end.

(** ** validation.js *)

Definition isHex (c : ascii) : bool :=
  let n := nat_of_ascii c in
  ((48 <=? n) && (n <=? 57) || (97 <=? n) && (n <=? 102) || (65 <=? n) && (n <=? 70))%nat.

Definition isOneOf (cs : string) (c : ascii) : bool :=
  existsb (Ascii.eqb c) (list_ascii_of_string cs).

(** Matches [n] characters of the class [cls] at the head of [cs]. *)
Fixpoint matchClass (cls : ascii → bool) (n : nat) (cs : list ascii) : option (list ascii) :=
  match n with
  | O => Some cs
  | S n' =>
      match cs with
      | c :: cs' => if cls c then matchClass cls n' cs' else None
      | [] => None
      end
  end.

(** [UUID_V4_REGEX.test(s)] for
    [/^[0-9a-f]{8}-[0-9a-f]{4}-[1-5][0-9a-f]{3}-[89ab][0-9a-f]{3}-[0-9a-f]{12}$/i]. *)
Definition UUID_V4_REGEX_test (s : string) : bool :=
  let hex := matchClass isHex in
  let dash := matchClass (isOneOf "-") 1 in
  let pattern :=
    [hex 8; dash; hex 4; dash; matchClass (isOneOf "12345") 1; hex 3; dash;
     matchClass (isOneOf "89abAB") 1; hex 3; dash; hex 12]%nat in
  match foldl (λ rest m, rest ≫= m) (Some (list_ascii_of_string s)) pattern with
  | Some [] => true
  | _ => false
  end.

(** One WhiteSpace or LineTerminator code point at the head of a UTF-8 string. *)
Definition skipWhiteSpace (cs : list ascii) : option (list ascii) :=
  match List.map nat_of_ascii cs, cs with
  | c :: _, _ :: rest =>
      if ((9 <=? c) && (c <=? 13) || (c =? 32))%nat then Some rest
      else
        match List.map nat_of_ascii rest, rest with
        | c2 :: _, _ :: rest2 =>
            if ((c =? 194) && (c2 =? 160))%nat then Some rest2
            else
              match List.map nat_of_ascii rest2, rest2 with
              | c3 :: _, _ :: rest3 =>
                  if ((c =? 225) && (c2 =? 154) && (c3 =? 128)
                      || (c =? 226) && (c2 =? 128)
                         && ((128 <=? c3) && (c3 <=? 138) || (c3 =? 168) || (c3 =? 169)
                             || (c3 =? 175))
                      || (c =? 226) && (c2 =? 129) && (c3 =? 159)
                      || (c =? 227) && (c2 =? 128) && (c3 =? 128)
                      || (c =? 239) && (c2 =? 187) && (c3 =? 191))%nat
                  then Some rest3 else None
              | _, _ => None
              end
        | _, _ => None
        end
  | _, _ => None
  end.

Fixpoint allWhiteSpace (fuel : nat) (cs : list ascii) : bool :=
  match cs with
  | [] => true
  | _ =>
      match fuel with
      | O => false
      | S fuel' =>
          match skipWhiteSpace cs with
          | Some rest => allWhiteSpace fuel' rest
          | None => false
          end
      end
  end.

(** [s.trim().length === 0] *)
Definition trimIsEmpty (s : string) : bool :=
  allWhiteSpace (String.length s) (list_ascii_of_string s).

Section Validation.
Context {date : DateAPI}.

Definition isIsoDateString (v : value) : bool :=
  match v with
  | Some (JString s) => bool_decide (is_Some (Date_ofString s))
  | _ => false
  end.

Definition pushIf (cond : bool) (errors : list string) (msg : string) : list string :=
  if cond then errors ++ [msg] else errors.

Definition validateEventEnvelope (body : json) : completion (list string) :=
  let errors : list string := [] in
  if negb (truthyValue (Some body)) || negb (String.eqb (typeof (Some body)) "object")
     || Array_isArray (Some body)
  then Normal ["Request body must be a JSON object."]
  else
    match ToString (nullish (getProp body "event_id") (JString "")) with
    | Throw err => Throw err
    | Normal event_id =>
        let errors :=
          pushIf (negb (UUID_V4_REGEX_test event_id)) errors
            "event_id must be a valid UUID." in
        let errors :=
          pushIf
            (match getProp body "type" with
             | Some (JString ty) => trimIsEmpty ty
             | _ => true
             end) errors "type must be a non-empty string." in
        let errors :=
          pushIf (negb (isIsoDateString (getProp body "ts"))) errors
            "ts must be a valid ISO-8601 timestamp string." in
        let errors :=
          pushIf
            (negb (truthyValue (getProp body "payload"))
             || negb (String.eqb (typeof (getProp body "payload")) "object")
             || Array_isArray (getProp body "payload")) errors
            "payload must be a JSON object." in
        let errors :=
          pushIf
            (match getProp body "device_id" with
             | None => false
             | Some v => negb (String.eqb (typeof (Some v)) "string")
             end) errors "device_id must be a string when provided." in
        let errors :=
          pushIf
            (match getProp body "meta" with
             | None => false
             | Some v =>
                 negb (truthyValue (Some v))
                 || negb (String.eqb (typeof (Some v)) "object")
                 || Array_isArray (Some v)
             end) errors "meta must be an object when provided." in
        Normal errors
    end.

(** The envelope rules of the specification. *)
Definition envelopeRulesPass (body : json) : Prop :=
  (∃ fields, body = JObject fields)
  ∧ (∃ id, getProp body "event_id" = Some (JString id) ∧ UUID_V4_REGEX_test id = true)
  ∧ (∃ ty, getProp body "type" = Some (JString ty) ∧ trimIsEmpty ty = false)
  ∧ (∃ ts, getProp body "ts" = Some (JString ts) ∧ validDate ts)
  ∧ (∃ fields, getProp body "payload" = Some (JObject fields))
  ∧ (getProp body "device_id" = None ∨ ∃ d, getProp body "device_id" = Some (JString d))
  ∧ (getProp body "meta" = None ∨ ∃ fields, getProp body "meta" = Some (JObject fields)).

End Validation.

(** ** routes/events.ts: POST /events/process *)

(** A row of the [events] table, with the columns the endpoint touches. *)
Module EventRow.
Record t : Type := mk {
  eventId : string;
  type : string;
  ts : Z;
  processedAt : option Z
}.
End EventRow.

(** The reply of the handler: status 400 with a message, or status 200 with
    [{ok: true, processed_count, processed_at}]. *)
Inductive ProcessReply : Type :=
  | BadRequest (message : string)
  | Processed (processed_count : nat) (processed_at : string).

Section ProcessEvents.
Context {date : DateAPI}.
(** [z.string().uuid()] of the validation library. *)
Variable zod_uuid : string → bool.

Definition asUuidString (v : json) : option string :=
  match v with
  | JString s => if zod_uuid s then Some s else None
  | _ => None
  end.

(** [processEventsSchema.safeParse(body)]: the parsed [event_ids] on success. *)
Definition processEventsSchema (body : value) : option (list string) :=
  match body with
  | Some (JObject fields) =>
      match ownProperty "event_ids" fields with
      | Some (JArray items) =>
          ids ← mapM asUuidString items;
          if ((1 <=? length ids) && (length ids <=? 1000))%nat then Some ids else None
      | _ => None
      end
  | _ => None
  end.

(** The [where] clause [{eventId: {in: event_ids}, processedAt: null}]. *)
Definition matchesWhere (event_ids : list string) (row : EventRow.t) : bool :=
  existsb (String.eqb (EventRow.eventId row)) event_ids
  && match EventRow.processedAt row with None => true | Some _ => false end.

(** The effect of [data: {processedAt: now}] on one row. *)
Definition markRow (event_ids : list string) (now : Z) (row : EventRow.t) : EventRow.t :=
  if matchesWhere event_ids row
  then EventRow.mk (EventRow.eventId row) (EventRow.type row) (EventRow.ts row) (Some now)
  else row.

(** [prisma.event.updateMany({where, data: {processedAt: now}})]: every row
    that matches is updated; the result counts them. *)
Definition updateMany (event_ids : list string) (now : Z) (table : list EventRow.t)
  : list EventRow.t * nat :=
  (map (markRow event_ids now) table,
   length (List.filter (matchesWhere event_ids) table)).

(** The handler of [POST /events/process]; [now] is [new Date()]. *)
Definition postEventsProcess (body : value) (now : Z) (table : list EventRow.t)
  : ProcessReply * list EventRow.t :=
  match processEventsSchema body with
  | None => (BadRequest "Invalid payload", table)
  | Some event_ids =>
      let result := updateMany event_ids now table in
      (Processed result.2 (Date_isoString now), result.1)
  end.

(** The number of rows not yet processed. *)
Definition unprocessed (table : list EventRow.t) : nat :=
  length (List.filter
            (λ row, match EventRow.processedAt row with None => true | Some _ => false end)
            table).

End ProcessEvents.

(** ** db.js: InMemoryEventRepository *)

(** SameValueZero on the keys of [eventsById].  A key is the [event_id] of a
    body parsed for one request: primitives compare by value, while an
    array or an object is a fresh object on every parse and so is never the
    same value as a stored key. *)
Definition sameValueZero (a b : value) : bool :=
  match a, b with
  | None, None => true
  | Some JNull, Some JNull => true
  | Some (JBool x), Some (JBool y) => Bool.eqb x y
  | Some (JNumber x), Some (JNumber y) => x =? y
  | Some (JString x), Some (JString y) => String.eqb x y
  | _, _ => false
  end.

(** A [Map], as its entries in insertion order. *)
Definition Map_has (entries : list (value * json)) (key : value) : bool :=
  existsb (λ entry, sameValueZero entry.1 key) entries.

Fixpoint Map_set (entries : list (value * json)) (key : value) (v : json)
  : list (value * json) :=
  match entries with
  | [] => [(key, v)]
  | (k, old) :: rest =>
      if sameValueZero k key then (k, v) :: rest else (k, old) :: Map_set rest key v
  end.

(** [{...fields, key: v}]: the property is overwritten in place if the
    object has it, appended otherwise. *)
Fixpoint setField (key : string) (v : json) (fields : list (string * json))
  : list (string * json) :=
  match fields with
  | [] => [(key, v)]
  | (k, old) :: rest =>
      if String.eqb k key then (k, v) :: rest else (k, old) :: setField key v rest
  end.

Section InMemoryEventRepository.
Context {date : DateAPI}.

(** The object stored for an envelope:
    [{...envelope, processed_at: null, created_at: new Date().toISOString()}]. *)
Definition storedEvent (now : Z) (envelope : list (string * json)) : json :=
  JObject (setField "created_at" (JString (Date_isoString now))
             (setField "processed_at" JNull envelope)).

(** [insertEvent(envelope)] on an envelope object; [now] is the clock at the
    call.  The result is [inserted]. *)
Definition InMemory_insertEvent (now : Z) (envelope : list (string * json))
    (eventsById : list (value * json)) : bool * list (value * json) :=
  let event_id := ownProperty "event_id" envelope in
  if Map_has eventsById event_id then (false, eventsById)
  else (true, Map_set eventsById event_id (storedEvent now envelope)).

End InMemoryEventRepository.

(** ** app.js: createHandler *)

(** The body of a request as [readJsonBody] meets it: a stream without a
    chunk, or a text on which [JSON.parse] returns a value or throws. *)
Inductive RequestBody : Type :=
  | NoChunks
  | Chunks (parsed : option json).

Module Request.
Record t : Type := mk {
  method : string;
  url : string;
  authorization : option string;
  body : RequestBody
}.
End Request.

(** What the handler does with a request: it writes a reply with a status
    code and a JSON body, or its promise is rejected with an error. *)
Inductive HandlerResult : Type :=
  | Replied (statusCode : nat) (body : json)
  | Rejected (error : string).

(** The [repository] object handed to [createHandler]: its two methods, each
    acting on the state [R] of the repository. *)
Record Repository (R : Type) : Type := {
  healthcheck : R → completion unit * R;
  insertEvent : Z → list (string * json) → R → completion bool * R
}.
Arguments healthcheck {R} _ _.
Arguments insertEvent {R} _ _ _ _.

Definition readJsonBody (body : RequestBody) : completion json :=
  match body with
  | NoChunks => Normal (JObject [])
  | Chunks (Some v) => Normal v
  | Chunks None => Throw "SyntaxError"
  end.

Section Handler.
Context {date : DateAPI}.

(** [new InMemoryEventRepository()] as a repository. *)
Definition InMemoryEventRepository : Repository (list (value * json)) :=
  {| healthcheck := λ eventsById, (Normal tt, eventsById);
     insertEvent := λ now envelope eventsById,
       let result := InMemory_insertEvent now envelope eventsById in
       (Normal result.1, result.2) |}.

(** [createHandler({repository, bearerToken})(req, res)]; [now] is the clock
    while the request is handled. *)
Definition handler {R} (repository : Repository R) (bearerToken : string)
    (now : Z) (req : Request.t) (state : R) : HandlerResult * R :=
  if String.eqb (Request.method req) "GET" && String.eqb (Request.url req) "/healthz" then
    match healthcheck repository state with
    | (Normal _, state') => (Replied 200 (JObject [("ok", JBool true)]), state')
    | (Throw _, state') => (Replied 503 (JObject [("ok", JBool false)]), state')
    end
  else if String.eqb (Request.method req) "POST" && String.eqb (Request.url req) "/events" then
    let authHeader := default "" (Request.authorization req) in
    if negb (String.eqb authHeader ("Bearer " +:+ bearerToken)) then
      (Replied 401 (JObject [("error", JString "unauthorized")]), state)
    else
      match readJsonBody (Request.body req) with
      | Throw _ => (Replied 400 (JObject [("error", JString "invalid_json")]), state)
      | Normal body =>
          match validateEventEnvelope body with
          | Throw err => (Rejected err, state)
          | Normal errors =>
              if (0 <? length errors)%nat then
                (Replied 400
                   (JObject [("error", JString "validation_error");
                             ("details", JArray (map JString errors))]), state)
              else
                match body with
                | JObject envelope =>
                    match insertEvent repository now envelope state with
                    | (Normal inserted, state') =>
                        (Replied 200
                           (JObject [("ok", JBool true); ("duplicate", JBool (negb inserted))]),
                         state')
                    | (Throw _, state') =>
                        (Replied 500 (JObject [("error", JString "internal_error")]), state')
                    end
                | _ =>
                    (* not reached: a body that is not an object has a violation *)
                    (Replied 500 (JObject [("error", JString "internal_error")]), state)
                end
          end
      end
  else (Replied 404 (JObject [("error", JString "not_found")]), state).

End Handler.

(** ** digest-worker.ts: main, one run of the worker *)

(** [process.env], as far as [main] reads it. *)
Module Env.
Record t : Type := mk {
  EVENT_API_URL : option string;
  EVENT_API_TOKEN : option string;
  OPENCLAW_HOOK_URL : option string;
  OPENCLAW_HOOK_TOKEN : option string
}.
End Env.

(** An element of the [digests] array of [GET /digests], with the fields the
    worker reads. *)
Module UnsentDigest.
Record t : Type := mk { digest_id : string; message : string }.
End UnsentDigest.

(** The value given to [JSON.stringify] for the body of a request. *)
Inductive FetchBody : Type :=
  | NoBody
  | DigestBody (digest_id : string) (payload : DigestPayload.t) (message : string)
  | ProcessBody (event_ids : list string)
  | HookBody (payload : OpenClawPayload.t)
  | EmptyObjectBody.

(** A call of [fetch]: the URL, the method, the Authorization header and the
    body (every request also carries [Content-Type: application/json]). *)
Module FetchRequest.
Record t : Type := mk {
  url : string;
  method : string;
  authorization : string;
  body : FetchBody
}.
End FetchRequest.

(** What [await res.json()] yields: an object with an [events] array of
    events, an object with a [digests] array of digests, another value
    without [events] and [digests], or nothing usable (the body is not JSON,
    or it is null).  The responses are taken to have one of these shapes, as
    the casts of the source do. *)
Inductive ResponseJson : Type :=
  | EventsJson (events : list RawEvent.t)
  | DigestsJson (digests : list UnsentDigest.t)
  | OtherJson
  | NotJson.

Module Response.
Record t : Type := mk { ok : bool; status : nat; json : ResponseJson }.
End Response.

Section Worker.
Context {date : DateAPI}.
(** The world outside the process: the Event API, the sink, the network and
    the source of random UUIDs. *)
Variable W : Type.
(** [await fetch(...)]: a response, or a rejection (network error). *)
Variable fetch : FetchRequest.t → W → completion Response.t * W.
(** [crypto.randomUUID()] *)
Variable randomUUID : W → string * W.

(** The state of a run: the world, and the exchanges made so far. *)
Definition RunState : Type := W * list (FetchRequest.t * completion Response.t).

(** A step of [main]: it yields a value, or the process ends with exit code 1
    ([process.exit(1)], also reached from [main().catch] when [main]
    throws). *)
Definition Task (A : Type) : Type := RunState → option A * RunState.

Definition ret {A} (a : A) : Task A := λ s, (Some a, s).

Definition bind {A B} (m : Task A) (f : A → Task B) : Task B :=
  λ s, match m s with
       | (Some a, s') => f a s'
       | (None, s') => (None, s')
       end.

Definition exit1 {A} : Task A := λ s, (None, s).

Definition awaitFetch (req : FetchRequest.t) : Task Response.t :=
  λ s, match fetch req s.1 with
       | (Normal res, w) => (Some res, (w, s.2 ++ [(req, Normal res)]))
       | (Throw err, w) => (None, (w, s.2 ++ [(req, Throw err)]))
       end.

Definition generateUUID : Task string :=
  λ s, let r := randomUUID s.1 in (Some r.1, (r.2, s.2)).

Notation "'let*' x ':=' m 'in' k" := (bind m (λ x, k))
  (at level 10, x name, m at level 100, k at level 200, only parsing).

(** [`${baseUrl}/digests/${digest_id}/sent`] with [{}] as body. *)
Definition sentRequest (baseUrl authorization digest_id : string) : FetchRequest.t :=
  FetchRequest.mk (baseUrl +:+ "/digests/" +:+ digest_id +:+ "/sent") "POST" authorization
    EmptyObjectBody.

Definition hookRequest (openClawUrl openClawToken : string) (payload : OpenClawPayload.t)
  : FetchRequest.t :=
  FetchRequest.mk openClawUrl "POST" ("Bearer " +:+ openClawToken) (HookBody payload).

(** The literal [retryPayload] of the retry loop. *)
Definition retryPayload (unsent : UnsentDigest.t) : OpenClawPayload.t :=
  OpenClawPayload.mk
    ("[digest:" +:+ UnsentDigest.digest_id unsent +:+ "] " +:+ UnsentDigest.message unsent)
    "EventDigest" "now" true "last".

(** [for (const unsent of unsentDigests) { ... }] *)
Fixpoint retryLoop (baseUrl authorization openClawUrl openClawToken current : string)
    (unsentDigests : list UnsentDigest.t) : Task unit :=
  match unsentDigests with
  | [] => ret tt
  | unsent :: rest =>
      let continue := retryLoop baseUrl authorization openClawUrl openClawToken current rest in
      if String.eqb (UnsentDigest.digest_id unsent) current then continue
      else
        let* retryRes := awaitFetch (hookRequest openClawUrl openClawToken (retryPayload unsent)) in
        if Response.ok retryRes then
          let* _ := awaitFetch (sentRequest baseUrl authorization (UnsentDigest.digest_id unsent)) in
          continue
        else continue
  end.

(** [main()] followed by [.catch(err => process.exit(1))]. *)
Definition main (env : Env.t) : Task unit :=
  let baseUrl := default "http://localhost:3000" (Env.EVENT_API_URL env) in
  let token := Env.EVENT_API_TOKEN env in
  let openClawUrl := Env.OPENCLAW_HOOK_URL env in
  let openClawToken := Env.OPENCLAW_HOOK_TOKEN env in
  if negb (truthy token) then exit1
  else
    let authorization := "Bearer " +:+ default "" token in
    let* eventsRes :=
      awaitFetch (FetchRequest.mk (baseUrl +:+ "/events?unprocessed_only=true&limit=500")
                    "GET" authorization NoBody) in
    if negb (Response.ok eventsRes) then exit1
    else
      match Response.json eventsRes with
      | EventsJson events =>
          if (length events =? 0)%nat then ret tt
          else
            let* uuid := generateUUID in
            match generateDigest uuid events with
            | Throw _ => exit1
            | Normal None => ret tt
            | Normal (Some digest) =>
                let* digestRes :=
                  awaitFetch (FetchRequest.mk (baseUrl +:+ "/digests") "POST" authorization
                                (DigestBody (DigestResult.digest_id digest)
                                   (DigestResult.payload digest)
                                   (DigestResult.message digest))) in
                if negb (Response.ok digestRes) then exit1
                else
                  let* processRes :=
                    awaitFetch (FetchRequest.mk (baseUrl +:+ "/events/process") "POST"
                                  authorization
                                  (ProcessBody
                                     (DigestPayload.event_ids (DigestResult.payload digest)))) in
                  if negb (Response.ok processRes) then exit1
                  else
                    match Response.json processRes with
                    | NotJson => exit1
                    | _ =>
                        let* _ :=
                          if truthy openClawUrl && truthy openClawToken then
                            let* sendRes :=
                              awaitFetch (hookRequest (default "" openClawUrl)
                                            (default "" openClawToken)
                                            (buildOpenClawPayload digest)) in
                            if Response.ok sendRes then
                              let* _ :=
                                awaitFetch (sentRequest baseUrl authorization
                                              (DigestResult.digest_id digest)) in
                              ret tt
                            else ret tt
                          else ret tt in
                        let* unsentRes :=
                          awaitFetch (FetchRequest.mk (baseUrl +:+ "/digests?unsent_only=true")
                                        "GET" authorization NoBody) in
                        if Response.ok unsentRes && truthy openClawUrl && truthy openClawToken
                        then
                          match Response.json unsentRes with
                          | DigestsJson unsentDigests =>
                              retryLoop baseUrl authorization (default "" openClawUrl)
                                (default "" openClawToken) (DigestResult.digest_id digest)
                                unsentDigests
                          | _ => exit1
                          end
                        else ret tt
                    end
            end
      | _ => exit1
      end.

End Worker.

(** ** Notions used to state the properties of a run *)

(** The payloads posted to the sink in a log of exchanges, in order. *)
Definition hookBodies (log : list (FetchRequest.t * completion Response.t))
  : list OpenClawPayload.t :=
  omap (λ x, match FetchRequest.body x.1 with HookBody p => Some p | _ => None end) log.

(** Every mark-sent request of the log (a request with body [{}]) comes
    right after a post to the sink that was answered with success, and it
    names the digest whose identifier heads the message of that post. *)
Definition sentAfterDelivery (baseUrl : string)
    (log : list (FetchRequest.t * completion Response.t)) : Prop :=
  ∀ i req res,
    log !! i = Some (req, res) → FetchRequest.body req = EmptyObjectBody →
    ∃ j hook hres id msg,
      i = S j
      ∧ log !! j = Some (hook, Normal hres)
      ∧ Response.ok hres = true
      ∧ FetchRequest.body hook =
          HookBody (OpenClawPayload.mk ("[digest:" +:+ id +:+ "] " +:+ msg)
                      "EventDigest" "now" true "last")
      ∧ FetchRequest.url req = baseUrl +:+ "/digests/" +:+ id +:+ "/sent".

Definition isHookBody (body : FetchBody) : bool :=
  match body with HookBody _ => true | _ => false end.

(** No request of the log posts to the sink. *)
Definition noHook (log : list (FetchRequest.t * completion Response.t)) : bool :=
  forallb (λ x, negb (isHookBody (FetchRequest.body x.1))) log.

(** The log starts with the three exchanges that persist a digest, each
    answered with success: the fetch of a batch of events, the post of a
    digest whose [event_ids] are the ids of the whole batch, and the post that
    marks these events processed. *)
Definition persisted (baseUrl : string)
    (log : list (FetchRequest.t * completion Response.t)) : Prop :=
  ∃ eventsReq eventsRes events authorization digest_id payload message digestRes processRes,
    log !! 0%nat = Some (eventsReq, Normal eventsRes)
    ∧ Response.ok eventsRes = true
    ∧ Response.json eventsRes = EventsJson events
    ∧ log !! 1%nat =
        Some (FetchRequest.mk (baseUrl +:+ "/digests") "POST" authorization
                (DigestBody digest_id payload message), Normal digestRes)
    ∧ Response.ok digestRes = true
    ∧ DigestPayload.event_ids payload = map RawEvent.event_id events
    ∧ log !! 2%nat =
        Some (FetchRequest.mk (baseUrl +:+ "/events/process") "POST" authorization
                (ProcessBody (map RawEvent.event_id events)), Normal processRes)
    ∧ Response.ok processRes = true.

(** A request with a hook payload goes to the sink's URL with the sink's
    token; any other request goes to a URL under the base URL of the Event API
    with the token of the Event API. *)
Definition credentialsMatch (baseUrl token openClawUrl openClawToken : string)
    (req : FetchRequest.t) : bool :=
  if isHookBody (FetchRequest.body req) then
    String.eqb (FetchRequest.url req) openClawUrl
    && String.eqb (FetchRequest.authorization req) ("Bearer " +:+ openClawToken)
  else
    String.prefix baseUrl (FetchRequest.url req)
    && String.eqb (FetchRequest.authorization req) ("Bearer " +:+ token).

(** ** app.ts: the [onRequest] hook of [buildApp] *)

(** What the hook does with a request: it lets it through to the route, or it
    sends a reply itself. *)
Inductive HookResult : Type :=
  | Continue
  | Reply (statusCode : nat) (message : string).

(** [s.startsWith(prefix)] *)
Definition startsWith (s prefix : string) : bool := String.prefix prefix s.

(** [s.slice(start)] for [0 <= start] *)
Definition slice (start : nat) (s : string) : string :=
  String.substring start (String.length s - start) s.

(** The hook on a request with the given URL and Authorization header;
    [EVENT_API_TOKEN] is [env.EVENT_API_TOKEN]. *)
Definition onRequest (EVENT_API_TOKEN : string) (url : string) (authorization : option string)
  : HookResult :=
  if String.eqb url "/healthz" then Continue
  else
    match authorization with
    | Some authHeader =>
        if String.eqb authHeader "" || negb (startsWith authHeader "Bearer ") then
          Reply 401 "Missing bearer token"
        else
          let token := slice (String.length "Bearer ") authHeader in
          if negb (String.eqb token EVENT_API_TOKEN) then Reply 401 "Invalid bearer token"
          else Continue
    | None => Reply 401 "Missing bearer token"
    end.

(** ** More notions used to state the properties *)

(** The trace of a stored segment in a list of events: an event of its place
    at its [enter_at] opened it (an enter, a dwell, or the exit that emitted
    it as an instant), and if it is closed, an enter or an exit at its
    [exit_at] closed it. *)
Definition tracedTo (evs : list RawEvent.t) (seg : StaySegment.t) : Prop :=
  (∃ e, e ∈ evs
     ∧ LocationPayload.place_id (RawEvent.payload e) = StaySegment.place_id seg
     ∧ RawEvent.ts e = StaySegment.enter_at seg
     ∧ LocationPayload.event (RawEvent.payload e) ∈ ["enter"; "dwell"; "exit"])
  ∧ ∀ exit, StaySegment.exit_at seg = Some exit →
      ∃ e, e ∈ evs ∧ RawEvent.ts e = exit
        ∧ LocationPayload.event (RawEvent.payload e) ∈ ["enter"; "exit"].

(** ** routes/events.ts: the digests endpoints *)

(** A row of the [digests] table, without its serial [id].  The table has a
    unique index on [digest_id]: it is a finite map from [digest_id] to the
    other columns. *)
Module DigestRow.
Record t : Type := mk {
  payload : list (string * json);
  message : option string;
  createdAt : Z;
  sentAt : option Z
}.
End DigestRow.

(** The reply of [POST /digests]: status 400, or status 200 with
    [{ok: true, digest_id, duplicate}]. *)
Inductive SaveReply : Type :=
  | SaveBadRequest (message : string)
  | Saved (digest_id : string) (duplicate : bool).

(** The reply of [POST /digests/:digestId/sent]: status 400 or 404 with a
    message, or status 200 with [{ok: true, digest_id, sent_at}]. *)
Inductive SentReply : Type :=
  | SentBadRequest (message : string)
  | SentNotFound (message : string)
  | MarkedSent (digest_id : string) (sent_at : string).

Module ParsedDigest.
Record t : Type := mk {
  digest_id : string;
  payload : list (string * json);
  message : option string
}.
End ParsedDigest.

Section Digests.
Context {date : DateAPI}.
(** [z.string().uuid()] and [z.string().datetime({offset: true})] of the
    validation library. *)
Variable zod_uuid : string → bool.
Variable zod_datetime : string → bool.

(** [digestSchema.safeParse(body)]: the parsed data on success. *)
Definition digestSchema (body : value) : option ParsedDigest.t :=
  match body with
  | Some (JObject fields) =>
      match ownProperty "digest_id" fields, ownProperty "payload" fields with
      | Some (JString digest_id), Some (JObject payload) =>
          if zod_uuid digest_id then
            match ownProperty "message" fields with
            | None => Some (ParsedDigest.mk digest_id payload None)
            | Some (JString message) =>
                if (1 <=? String.length message)%nat
                then Some (ParsedDigest.mk digest_id payload (Some message))
                else None
            | Some _ => None
            end
          else None
      | _, _ => None
      end
  | _ => None
  end.

(** [prisma.digest.createMany({data, skipDuplicates: true})] with one row:
    the row is inserted unless its [digest_id] is taken; the result is the
    count of inserted rows.  [now] is the clock of the database, for the
    default of [created_at]. *)
Definition createMany (digest : ParsedDigest.t) (now : Z) (table : gmap string DigestRow.t)
  : gmap string DigestRow.t * nat :=
  match table !! ParsedDigest.digest_id digest with
  | Some _ => (table, 0%nat)
  | None =>
      (<[ParsedDigest.digest_id digest :=
           DigestRow.mk (ParsedDigest.payload digest) (ParsedDigest.message digest) now None]>
         table, 1%nat)
  end.

(** The handler of [POST /digests]. *)
Definition postDigests (body : value) (now : Z) (table : gmap string DigestRow.t)
  : SaveReply * gmap string DigestRow.t :=
  match digestSchema body with
  | None => (SaveBadRequest "Invalid digest payload", table)
  | Some digest =>
      let result := createMany digest now table in
      (Saved (ParsedDigest.digest_id digest) (result.2 =? 0)%nat, result.1)
  end.

(** [markSentSchema.safeParse(body)]: the parsed [sent_at] on success. *)
Definition markSentSchema (body : json) : option (option string) :=
  match body with
  | JObject fields =>
      match ownProperty "sent_at" fields with
      | None => Some None
      | Some (JString sent_at) => if zod_datetime sent_at then Some (Some sent_at) else None
      | Some _ => None
      end
  | _ => None
  end.

(** The handler of [POST /digests/:digestId/sent]; [now] is [new Date()].
    [prisma.digest.update] rejects an Invalid Date, and the handler with
    it. *)
Definition postDigestSent (digestId : option string) (body : value) (now : Z)
    (table : gmap string DigestRow.t) : completion SentReply * gmap string DigestRow.t :=
  let digestId :=
    match digestId with
    | Some id => if zod_uuid id then Some id else None
    | None => None
    end in
  let body := markSentSchema (nullish body (JObject [])) in
  match digestId with
  | None => (Normal (SentBadRequest "Invalid digest id"), table)
  | Some id =>
      match body with
      | None => (Normal (SentBadRequest "Invalid payload"), table)
      | Some sent_at =>
          match table !! id with
          | None => (Normal (SentNotFound "Digest not found"), table)
          | Some digest =>
              let sentAt :=
                if truthy sent_at then Date_ofString (default "" sent_at) else Some now in
              match sentAt with
              | None => (Throw "PrismaClientValidationError", table)
              | Some t =>
                  (Normal (MarkedSent id (Date_isoString t)),
                   <[id := DigestRow.mk (DigestRow.payload digest) (DigestRow.message digest)
                             (DigestRow.createdAt digest) (Some t)]> table)
              end
          end
      end
  end.

End Digests.

(** ** Sample data

    Batches in the style of the repository's tests. *)
Module Samples.

Definition locationEvent (id ts kind place : string) : RawEvent.t :=
  RawEvent.mk id "location" ts (LocationPayload.mk kind place) (Some "android-main") None.

(** An event of another type; its payload has neither [event] nor [place_id]
    (they are not read for such an event). *)
Definition otherEvent (id ty ts : string) : RawEvent.t :=
  RawEvent.mk id ty ts (LocationPayload.mk "" "") (Some "android-main") None.

Definition enterHome8 := locationEvent "ccc-1" "2025-02-23T08:00:00+09:00" "enter" "home".
Definition exitHome9 := locationEvent "ccc-2" "2025-02-23T09:00:00+09:00" "exit" "home".
Definition enterOffice930 := locationEvent "ccc-3" "2025-02-23T09:30:00+09:00" "enter" "office".
Definition exitOffice18 := locationEvent "ccc-4" "2025-02-23T18:00:00+09:00" "exit" "office".
Definition exitOffice9 := locationEvent "ccc-5" "2025-02-23T09:00:00+09:00" "exit" "office".
Definition dwellOffice9 := locationEvent "ccc-6" "2025-02-23T09:00:00+09:00" "dwell" "office".
Definition enterOffice10 := locationEvent "ddd-1" "2025-02-23T10:00:00+09:00" "enter" "office".
Definition enterOffice1030 := locationEvent "ddd-2" "2025-02-23T10:30:00+09:00" "enter" "office".
Definition exitOffice10utc := locationEvent "ddd-3" "2025-02-23T01:00:00.000Z" "exit" "office".


(** A working day: home, then office. *)
Definition commute : list RawEvent.t := [enterHome8; exitHome9; enterOffice930; exitOffice18].
(** The same events in another arrival order. *)
Definition commuteShuffled : list RawEvent.t :=
  [exitOffice18; enterHome8; enterOffice930; exitHome9].
(** An enter followed by an exit of another place. *)
Definition unmatchedExit : list RawEvent.t := [enterHome8; exitOffice9].
(** An enter followed by a dwell at another place. *)
Definition dwellElsewhere : list RawEvent.t := [enterHome8; dwellOffice9].
(** Two enters of the same place. *)
Definition reentry : list RawEvent.t := [enterOffice10; enterOffice1030].
(** An enter and an exit at the same instant, written with different offsets. *)
Definition sameInstant : list RawEvent.t := [enterOffice10; exitOffice10utc].
(** One location event, one email, one todo. *)
Definition mixed : list RawEvent.t :=
  [locationEvent "ggg-1" "2025-02-23T10:00:00+09:00" "enter" "home";
   otherEvent "ggg-2" "email" "2025-02-23T10:05:00+09:00";
   otherEvent "ggg-3" "todo" "2025-02-23T10:10:00+09:00"].

(** The segment [aggregateLocationEvents] returns for [sameInstant]. *)
Definition zeroSpanSegment : StaySegment.t :=
  StaySegment.mk "office" "2025-02-23T10:00:00+09:00" (Some "2025-02-23T01:00:00.000Z")
    (Some (Num 0)).

Definition uuid : string := "550e8400-e29b-41d4-a716-446655440000".

Definition envelope (event_id : json) : json :=
  JObject [("event_id", event_id); ("type", JString "location");
           ("ts", JString "2025-02-23T10:30:00+09:00");
           ("payload", JObject [("event", JString "enter"); ("place_id", JString "office")]);
           ("device_id", JString "android-main");
           ("meta", JObject [("source", JString "tasker")])].

(** [{"event_id": ["550e8400-..."], ...}]: the id wrapped in an array. *)
Definition arrayIdEnvelope : json := envelope (JArray [JString uuid]).
(** [{"event_id": {"toString": 0}, ...}] *)
Definition shadowedToStringEnvelope : json := envelope (JObject [("toString", JNumber 0)]).

Definition uuid2 : string := "6fa459ea-ee8a-4ca4-894e-db77e160355e".
Definition uuid3 : string := "16fd2706-8baf-433b-82eb-8c7fada847da".

(** Two unprocessed rows and one processed earlier. *)
Definition table : list EventRow.t :=
  [EventRow.mk uuid "location" 1740274200000 None;
   EventRow.mk uuid2 "email" 1740274500000 (Some 1740275000000);
   EventRow.mk uuid3 "todo" 1740274800000 None].

Definition processBody : value := Some (JObject [("event_ids", JArray [JString uuid; JString uuid2])]).


(** The fields of [envelope event_id]. *)
Definition envelopeFields (event_id : json) : list (string * json) :=
  [("event_id", event_id); ("type", JString "location");
   ("ts", JString "2025-02-23T10:30:00+09:00");
   ("payload", JObject [("event", JString "enter"); ("place_id", JString "office")]);
   ("device_id", JString "android-main");
   ("meta", JObject [("source", JString "tasker")])].

(** An authorized [POST /events] with the given body. *)
Definition postEvent (body : json) : Request.t :=
  Request.mk "POST" "/events" (Some "Bearer secret") (Chunks (Some body)).

(** A scripted world for the worker: the answers to the successive calls of
    [fetch]; the network fails once the script is used up.  Every UUID drawn
    is [uuid]. *)
Definition scriptedFetch (req : FetchRequest.t) (answers : list (completion Response.t))
  : completion Response.t * list (completion Response.t) :=
  match answers with
  | [] => (Throw "fetch failed", [])
  | answer :: rest => (answer, rest)
  end.

Definition constantUUID (answers : list (completion Response.t))
  : string * list (completion Response.t) := (uuid, answers).

Definition workerEnv : Env.t :=
  Env.mk (Some "http://api.test") (Some "secret") (Some "http://sink.test/hooks/agent")
    (Some "hook-secret").

Definition answer (ok : bool) (status : nat) (json : ResponseJson) : completion Response.t :=
  Normal (Response.mk ok status json).

(** A run in which every request succeeds and one older digest is unsent. *)
Definition happyRun : list (completion Response.t) :=
  [answer true 200 (EventsJson commute); answer true 200 OtherJson; answer true 200 OtherJson;
   answer true 200 OtherJson; answer true 200 OtherJson;
   answer true 200 (DigestsJson [UnsentDigest.mk uuid2 "[LocationDigest] イベントなし"]);
   answer true 200 OtherJson; answer true 200 OtherJson].


(** One email and one event of a type the worker does not know. *)
Definition noLocation : list RawEvent.t :=
  [otherEvent "hhh-1" "email" "2025-02-23T10:05:00+09:00";
   otherEvent "hhh-2" "calendar" "2025-02-23T10:10:00+09:00"].


Definition digestBody : value :=
  Some (JObject [("digest_id", JString uuid); ("payload", JObject [("type", JString "location")]);
                 ("message", JString "[LocationDigest] イベントなし")]).

(** The same [digest_id] with another message. *)
Definition digestBody2 : value :=
  Some (JObject [("digest_id", JString uuid); ("payload", JObject []);
                 ("message", JString "another message")]).

End Samples.

(** * Properties *)

(** ** Arithmetic of doubles on integers *)

Lemma roundHalfEven_bounds num den :
  0 < den →
  2 * (den * roundHalfEven num den) - den <= 2 * num
  ∧ 2 * num <= 2 * (den * roundHalfEven num den) + den.
Proof.
  intros Hden. unfold roundHalfEven.
  pose proof (Z.div_mod num den ltac:(lia)) as Hdiv.
  pose proof (Z.mod_pos_bound num den Hden) as Hmod.
  destruct (Z.ltb_spec (2 * (num mod den)) den);
    [|destruct (Z.ltb_spec den (2 * (num mod den))); [|destruct (Z.even (num / den))]];
    lia.
Qed.


Lemma doubleExponent_54 x :
  2 ^ 53 < Z.abs x < 2 ^ 54 → doubleExponent x 1 = 1.
Proof.
  intros Hx. unfold doubleExponent.
  assert (Z.log2 (Z.abs x) = 53) as -> by (apply Z.log2_unique; lia).
  change (Z.log2 1) with 0. change (0 <=? 53 - 0) with true. cbv iota.
  destruct (Z.ltb_spec (Z.abs x) (1 * 2 ^ (53 - 0))) as [Hlt|_]; [|reflexivity].
  change (1 * 2 ^ (53 - 0)) with (2 ^ 53) in Hlt. lia.
Qed.

(** Between time values, which are at most 8.64e15 in magnitude, a
    difference keeps its sign. *)
Lemma toNumber_sign x :
  Z.abs x < 2 ^ 54 →
  ∃ r, toNumber x = Num r ∧ (0 < r ↔ 0 < x) ∧ (r = 0 ↔ x = 0).
Proof.
  intros Hx. unfold toNumber.
  destruct (Z.leb_spec (Z.abs x) (2 ^ 53)) as [|Hbig]; [by exists x|].
  rewrite doubleExponent_54 by lia. change (2 ^ 1) with 2.
  pose proof (roundHalfEven_bounds x 2 ltac:(lia)) as [Hlo Hhi].
  set (m := roundHalfEven x 2) in *.
  assert (Z.abs (m * 2) < 2 ^ 1024) as Hfin.
  { assert (2 ^ 54 < 2 ^ 1024) by (apply Z.pow_lt_mono_r; lia). lia. }
  apply Z.leb_gt in Hfin as ->.
  exists (m * 2). split; [done|]. lia.
Qed.




(** The difference of two time values has the sign of the exact difference. *)
Lemma number_sub_time ta tb :
  Z.abs ta <= 8640000000000000 → Z.abs tb <= 8640000000000000 →
  ∃ r, number_sub (Num ta) (Num tb) = Num r ∧ (0 < r ↔ tb < ta) ∧ (r = 0 ↔ ta = tb).
Proof.
  intros Ha Hb. simpl.
  destruct (toNumber_sign (ta - tb)) as (r & Hr & Hpos & Hzero).
  { assert (2 ^ 54 = 18014398509481984) as -> by reflexivity. lia. }
  exists r. split; [done|]. lia.
Qed.


Section DigestWorkerProperties.
Context {date : DateAPI}.

Implicit Types (st : Loop.t) (seg cur : StaySegment.t) (e : RawEvent.t).
Implicit Types (evs events : list RawEvent.t) (segs : list StaySegment.t).

(** ** The loop as a fold *)

Lemma loop_app evs1 evs2 st : loop (evs1 ++ evs2) st = loop evs2 (loop evs1 st).
Proof. unfold loop. apply foldl_app. Qed.

Lemma loop_snoc evs e st : loop (evs ++ [e]) st = loop_body (loop evs st) e.
Proof. by rewrite loop_app. Qed.

Lemma aggregateLocationEvents_loop events :
  aggregateLocationEvents events =
  let st := loop (locationEvents events) (Loop.mk [] [] None) in
  Aggregated.mk (Loop.segments st) (Loop.eventIds st).
Proof.
  unfold aggregateLocationEvents.
  destruct (locationEvents events) as [|e l] eqn:E; reflexivity.
Qed.

(** ** The reference held in [currentSegment] *)

Lemma deref_Some st i cur :
  deref st = Some (i, cur) ↔
  Loop.currentSegment st = Some i ∧ Loop.segments st !! i = Some cur.
Proof.
  unfold deref. destruct (Loop.currentSegment st) as [j|]; [|naive_solver].
  destruct (Loop.segments st !! j) eqn:E; naive_solver.
Qed.

Lemma deref_None st :
  current_open st → deref st = None → Loop.currentSegment st = None.
Proof.
  unfold current_open, deref. destruct (Loop.currentSegment st) as [j|]; [|done].
  intros (cur & -> & _). done.
Qed.

Lemma current_open_deref st i :
  current_open st → Loop.currentSegment st = Some i →
  ∃ cur, deref st = Some (i, cur) ∧ StaySegment.exit_at cur = None.
Proof.
  unfold current_open. intros Hc Hi. rewrite Hi in Hc.
  destruct Hc as (cur & Hl & Hx). exists cur. split; [|done].
  apply deref_Some. done.
Qed.

Lemma lookup_snoc_new {A} (l : list A) (x : A) : (l ++ [x]) !! length l = Some x.
Proof. rewrite lookup_app_r by lia. by rewrite Nat.sub_diag. Qed.

Lemma current_open_body st e : current_open st → current_open (loop_body st e).
Proof.
  intros Hc. unfold loop_body.
  destruct (String.eqb (LocationPayload.event (RawEvent.payload e)) "enter").
  { unfold current_open; simpl. eexists. split; [apply lookup_snoc_new|done]. }
  destruct (String.eqb (LocationPayload.event (RawEvent.payload e)) "dwell").
  { destruct (deref st) as [[i cur]|] eqn:D.
    - destruct (negb _).
      + unfold current_open; simpl. eexists. split; [apply lookup_snoc_new|done].
      + exact Hc.
    - unfold current_open; simpl. eexists. split; [apply lookup_snoc_new|done]. }
  destruct (String.eqb (LocationPayload.event (RawEvent.payload e)) "exit").
  { assert (∀ x, current_open
      (Loop.mk (Loop.segments st ++ [x]) (Loop.eventIds st ++ [RawEvent.event_id e])
         (Loop.currentSegment st))) as Hsnoc.
    { intros x. unfold current_open in *; simpl.
      destruct (Loop.currentSegment st) as [j|]; [|done].
      destruct Hc as (cur & Hl & Hx). exists cur. split; [|done].
      by apply lookup_app_l_Some. }
    destruct (deref st) as [[i cur]|] eqn:D; [|apply Hsnoc].
    destruct (String.eqb _ _); [done|apply Hsnoc]. }
  exact Hc.
Qed.

Lemma current_open_loop evs st : current_open st → current_open (loop evs st).
Proof.
  revert st. induction evs as [|e evs IH]; intros st Hc; [done|].
  apply IH, current_open_body, Hc.
Qed.

Lemma current_open_init : current_open (Loop.mk [] [] None).
Proof. done. Qed.

(** ** Transitions of the scan *)

Lemma loop_body_enter st e :
  LocationPayload.event (RawEvent.payload e) = "enter" →
  current_open st →
  loop_body st e =
  Loop.mk
    (match deref st with
     | Some (i, cur) => <[i := closeSegment cur (RawEvent.ts e)]> (Loop.segments st)
     | None => Loop.segments st
     end ++ [openSegment (LocationPayload.place_id (RawEvent.payload e)) (RawEvent.ts e)])
    (Loop.eventIds st ++ [RawEvent.event_id e])
    (Some (length (Loop.segments st))).
Proof.
  intros He Hc. unfold loop_body. rewrite He. simpl.
  destruct (deref st) as [[i cur]|] eqn:D; [|done].
  apply deref_Some in D as [Hi Hl].
  destruct (current_open_deref st i Hc Hi) as (cur' & D' & Hx).
  apply deref_Some in D' as [_ Hl']. rewrite Hl in Hl'. injection Hl' as <-.
  rewrite Hx. by rewrite length_insert.
Qed.

Lemma loop_body_exit st e :
  LocationPayload.event (RawEvent.payload e) = "exit" →
  loop_body st e =
  match deref st with
  | Some (i, cur) =>
      if String.eqb (StaySegment.place_id cur) (LocationPayload.place_id (RawEvent.payload e))
      then Loop.mk (<[i := closeSegment cur (RawEvent.ts e)]> (Loop.segments st))
             (Loop.eventIds st ++ [RawEvent.event_id e]) None
      else Loop.mk
             (Loop.segments st ++
                [StaySegment.mk (LocationPayload.place_id (RawEvent.payload e))
                   (RawEvent.ts e) (Some (RawEvent.ts e)) (Some (Num 0))])
             (Loop.eventIds st ++ [RawEvent.event_id e]) (Loop.currentSegment st)
  | None =>
      Loop.mk
        (Loop.segments st ++
           [StaySegment.mk (LocationPayload.place_id (RawEvent.payload e))
              (RawEvent.ts e) (Some (RawEvent.ts e)) (Some (Num 0))])
        (Loop.eventIds st ++ [RawEvent.event_id e]) (Loop.currentSegment st)
  end.
Proof. intros He. unfold loop_body. rewrite He. simpl. by destruct (deref st) as [[??]|]. Qed.

Lemma aggregate_split events pre e post :
  locationEvents events = pre ++ e :: post →
  aggregateLocationEvents events =
  let st := loop post (loop (pre ++ [e]) (Loop.mk [] [] None)) in
  Aggregated.mk (Loop.segments st) (Loop.eventIds st).
Proof.
  intros E. rewrite aggregateLocationEvents_loop, E. simpl.
  by rewrite (cons_middle e pre post), app_assoc, (loop_app (pre ++ [e]) post).
Qed.

(** C4: an enter(P, t) closes the segment [currentSegment] refers to (which is
    open), by setting its [exit_at] to t and its [duration_min] to the rounded
    minutes since its [enter_at]; leaves every other segment as it is; and
    appends the open segment {P, t, null, null}, which becomes the current
    one.  Nothing depends on whether P is the place of the segment that was
    open. *)
Theorem enter_closes_open_then_appends events pre e post :
  locationEvents events = pre ++ e :: post →
  LocationPayload.event (RawEvent.payload e) = "enter" →
  let st := loop pre (Loop.mk [] [] None) in
  let st' := loop (pre ++ [e]) (Loop.mk [] [] None) in
  let P := LocationPayload.place_id (RawEvent.payload e) in
  let t := RawEvent.ts e in
  aggregateLocationEvents events =
    Aggregated.mk (Loop.segments (loop post st')) (Loop.eventIds (loop post st'))
  ∧ (∀ i, Loop.currentSegment st = Some i →
       ∃ cur, Loop.segments st !! i = Some cur
         ∧ StaySegment.exit_at cur = None
         ∧ Loop.segments st' !! i =
             Some (StaySegment.mk (StaySegment.place_id cur) (StaySegment.enter_at cur)
                     (Some t)
                     (Some (Math_round_div
                              (number_sub (getTime t) (getTime (StaySegment.enter_at cur)))
                              60000))))
  ∧ (∀ j seg, Loop.currentSegment st ≠ Some j →
       Loop.segments st !! j = Some seg → Loop.segments st' !! j = Some seg)
  ∧ Loop.segments st' !! length (Loop.segments st) = Some (StaySegment.mk P t None None)
  ∧ length (Loop.segments st') = S (length (Loop.segments st))
  ∧ Loop.currentSegment st' = Some (length (Loop.segments st)).
Proof.
  intros E He st st' P t.
  assert (current_open st) as Hc by apply current_open_loop, current_open_init.
  split; [by apply aggregate_split|].
  assert (st' = loop_body st e) as -> by apply loop_snoc.
  rewrite (loop_body_enter st e He Hc). simpl.
  destruct (deref st) as [[i cur]|] eqn:D.
  - apply deref_Some in D as [Hi Hl].
    assert (i < length (Loop.segments st))%nat as Hlt by eauto using lookup_lt_Some.
    destruct (current_open_deref st i Hc Hi) as (cur' & D' & Hx).
    apply deref_Some in D' as [_ Hl']. rewrite Hl in Hl'. injection Hl' as <-.
    repeat split.
    + intros i' Hi'. rewrite Hi in Hi'. injection Hi' as <-.
      exists cur. repeat split; [done..|].
      rewrite lookup_app_l by (by rewrite length_insert).
      by rewrite list_lookup_insert_eq.
    + intros j seg Hj Hs. rewrite Hi in Hj.
      apply lookup_app_l_Some. rewrite list_lookup_insert_ne; [done|congruence].
    + rewrite <-(length_insert (Loop.segments st) i (closeSegment cur t)).
      apply lookup_snoc_new.
    + rewrite length_app, length_insert. simpl. lia.
  - apply (deref_None st Hc) in D.
    repeat split.
    + intros i Hi. congruence.
    + intros j seg _ Hs. by apply lookup_app_l_Some.
    + apply lookup_snoc_new.
    + rewrite length_app. simpl. lia.
Qed.

(** C5: an exit(P, t) whose place is the place of the segment
    [currentSegment] refers to closes that segment ([exit_at] = t,
    [duration_min] the rounded minutes) and sets [currentSegment] to null;
    an exit(P, t) with no such segment (no current segment, or one of another
    place) appends the instant segment {P, t, t, 0} and leaves
    [currentSegment] and every stored segment as they are. *)
Theorem exit_closes_matching_or_appends_instant events pre e post :
  locationEvents events = pre ++ e :: post →
  LocationPayload.event (RawEvent.payload e) = "exit" →
  let st := loop pre (Loop.mk [] [] None) in
  let st' := loop (pre ++ [e]) (Loop.mk [] [] None) in
  let P := LocationPayload.place_id (RawEvent.payload e) in
  let t := RawEvent.ts e in
  aggregateLocationEvents events =
    Aggregated.mk (Loop.segments (loop post st')) (Loop.eventIds (loop post st'))
  ∧ (∀ i cur, Loop.currentSegment st = Some i → Loop.segments st !! i = Some cur →
       StaySegment.place_id cur = P →
       Loop.segments st' =
         <[i := StaySegment.mk (StaySegment.place_id cur) (StaySegment.enter_at cur)
                  (Some t)
                  (Some (Math_round_div
                           (number_sub (getTime t) (getTime (StaySegment.enter_at cur)))
                           60000))]> (Loop.segments st)
       ∧ Loop.currentSegment st' = None)
  ∧ ((∀ i cur, Loop.currentSegment st = Some i → Loop.segments st !! i = Some cur →
        StaySegment.place_id cur ≠ P) →
       Loop.segments st' = Loop.segments st ++ [StaySegment.mk P t (Some t) (Some (Num 0))]
       ∧ Loop.currentSegment st' = Loop.currentSegment st).
Proof.
  intros E He st st' P t.
  assert (st' = loop_body st e) as Hst' by apply loop_snoc.
  split; [by apply aggregate_split|].
  rewrite Hst', (loop_body_exit st e He). clear Hst'.
  split.
  - intros i cur Hi Hl HP.
    assert (deref st = Some (i, cur)) as -> by by apply deref_Some.
    fold P. apply String.eqb_eq in HP. rewrite HP. done.
  - intros Hne. destruct (deref st) as [[i cur]|] eqn:D; [|done].
    apply deref_Some in D as [Hi Hl]. fold P.
    destruct (String.eqb_spec (StaySegment.place_id cur) P) as [Heq|_]; [|done].
    by destruct (Hne i cur Hi Hl).
Qed.

(** ** At most one open segment *)

Lemma deref_snoc st x ids :
  current_open st →
  deref (Loop.mk (Loop.segments st ++ [x]) ids (Loop.currentSegment st)) = deref st.
Proof.
  intros Hc. unfold deref, current_open in *. simpl.
  destruct (Loop.currentSegment st) as [i|]; [|done].
  destruct Hc as (cur & Hl & _). by rewrite (lookup_app_l_Some _ _ _ _ Hl), Hl.
Qed.

Lemma one_open_append_open st tr ids P t :
  one_open st tr →
  Loop.currentSegment st = None →
  one_open (Loop.mk (Loop.segments st ++ [openSegment P t]) ids
              (Some (length (Loop.segments st)))) (Some P).
Proof.
  intros (Hc & Htr & Hcl & Hin) Hn. unfold one_open, current_open, deref. simpl.
  rewrite lookup_snoc_new. simpl. split; [|split; [|split]]; [|done| |].
  - by eexists.
  - intros j seg Hj Hne. apply lookup_snoc_Some in Hj as [[_ Hj]|[-> _]]; [|done].
    apply (Hcl j seg Hj). by rewrite Hn.
  - intros i j seg [= <-] Hlt Hj. apply lookup_lt_Some in Hj.
    rewrite length_app in Hj. simpl in Hj. lia.
Qed.

Lemma one_open_ids st ids tr :
  one_open st tr →
  one_open (Loop.mk (Loop.segments st) ids (Loop.currentSegment st)) tr.
Proof. done. Qed.

Lemma one_open_body st tr e :
  one_open st tr → dwellSwitches tr e = false →
  one_open (loop_body st e) (trackOpen tr e).
Proof.
  intros Hinv Hd. pose proof Hinv as (Hc & Htr & Hcl & Hin).
  unfold trackOpen, dwellSwitches in *.
  destruct (String.eqb_spec (LocationPayload.event (RawEvent.payload e)) "enter") as [He|Hn1].
  { rewrite (loop_body_enter st e He Hc).
    destruct (deref st) as [[i cur]|] eqn:D.
    - apply deref_Some in D as [Hi Hl].
      pose proof (lookup_lt_Some _ _ _ Hl) as Hlt.
      unfold one_open, current_open, deref. simpl.
      assert (∀ x, (<[i:=closeSegment cur (RawEvent.ts e)]> (Loop.segments st) ++ [x])
                     !! length (Loop.segments st) = Some x) as Hnew.
      { intros x. apply lookup_snoc_Some. right. by rewrite length_insert. }
      rewrite Hnew. simpl. split; [|split; [|split]]; [|done| |].
      + by eexists.
      + intros j seg Hj Hne. apply lookup_snoc_Some in Hj as [[_ Hj]|[-> _]].
        * apply list_lookup_insert_Some in Hj as [(-> & <- & _)|[Hij Hj]]; [done|].
          apply (Hcl j seg Hj). rewrite Hi. congruence.
        * by rewrite length_insert in Hne.
      + intros i' j seg [= <-] Hlt' Hj. apply lookup_lt_Some in Hj.
        rewrite length_app, length_insert in Hj. simpl in Hj. lia.
    - apply (deref_None st Hc) in D.
      by apply (one_open_append_open st tr). }
  destruct (String.eqb_spec (LocationPayload.event (RawEvent.payload e)) "dwell") as [He|Hnd].
  { unfold loop_body. rewrite He. simpl in *.
    destruct (deref st) as [[i cur]|] eqn:D.
    - simpl in Htr. subst tr. simpl in Hd.
      apply negb_false_iff in Hd. rewrite Hd. simpl.
      by apply one_open_ids.
    - apply (deref_None st Hc) in D.
      simpl in Htr. subst tr. by apply (one_open_append_open st None). }
  destruct (String.eqb_spec (LocationPayload.event (RawEvent.payload e)) "exit") as [He|Hne].
  { rewrite (loop_body_exit st e He).
    assert (∀ x, StaySegment.exit_at x = Some (StaySegment.enter_at x) →
                 StaySegment.duration_min x = Some (Num 0) →
                 one_open (Loop.mk (Loop.segments st ++ [x])
                             (Loop.eventIds st ++ [RawEvent.event_id e])
                             (Loop.currentSegment st)) tr) as Hsnoc.
    { intros x Hx1 Hx2. unfold one_open. rewrite deref_snoc by done. simpl.
      split; [|split; [done|split]].
      - unfold current_open in *. simpl. destruct (Loop.currentSegment st); [|done].
        destruct Hc as (cur & Hl & Ho). exists cur. split; [|done].
        by apply lookup_app_l_Some.
      - intros j seg Hj Hn. apply lookup_snoc_Some in Hj as [[_ Hj]|[_ <-]].
        + by apply (Hcl j seg).
        + by rewrite Hx1.
      - intros i j seg Hi Hlt Hj. apply lookup_snoc_Some in Hj as [[_ Hj]|[_ <-]].
        + by apply (Hin i j seg).
        + done. }
    destruct (deref st) as [[i cur]|] eqn:D.
    - simpl in Htr. subst tr. simpl.
      destruct (String.eqb (StaySegment.place_id cur)
                  (LocationPayload.place_id (RawEvent.payload e))) eqn:Hp.
      + apply deref_Some in D as [Hi Hl].
        unfold one_open, current_open, deref. simpl.
        split; [|split; [|split]]; [done..| |done].
        intros j seg Hj _.
        apply list_lookup_insert_Some in Hj as [(-> & <- & _)|[Hij Hj]]; [done|].
        apply (Hcl j seg Hj). rewrite Hi. congruence.
      + by apply Hsnoc.
    - simpl in Htr. subst tr. by apply Hsnoc. }
  unfold loop_body.
  repeat match goal with
         | |- context [String.eqb ?a ?b] => destruct (String.eqb_spec a b); [done|]
         end.
  by apply one_open_ids.
Qed.

Lemma one_open_loop evs st tr :
  one_open st tr → noDwellSwitch tr evs = true →
  ∃ tr', one_open (loop evs st) tr'.
Proof.
  revert st tr. induction evs as [|e evs IH]; intros st tr Hinv Hnd; [by exists tr|].
  simpl in Hnd. apply andb_true_iff in Hnd as [Hd Hnd]. apply negb_true_iff in Hd.
  apply (IH (loop_body st e) (trackOpen tr e)); [by apply one_open_body|done].
Qed.

Lemma one_open_init : one_open (Loop.mk [] [] None) None.
Proof. split; [|split; [|split]]; [done..| |done]. by intros [|?] ? ?. Qed.

(** C2, amended: when no dwell event names a place other than that of the
    segment open at that moment, the output holds at most one open segment,
    and every segment after an open one is an instant segment
    ([exit_at] = [enter_at], [duration_min] = 0) emitted by an unmatched
    exit. *)
Theorem at_most_one_open_then_instants events :
  noDwellSwitch None (locationEvents events) = true →
  let segs := Aggregated.segments (aggregateLocationEvents events) in
  (∀ i j s1 s2, segs !! i = Some s1 → segs !! j = Some s2 →
     StaySegment.exit_at s1 = None → StaySegment.exit_at s2 = None → i = j)
  ∧ (∀ i j s1 s2, segs !! i = Some s1 → StaySegment.exit_at s1 = None →
       (i < j)%nat → segs !! j = Some s2 → isInstant s2).
Proof.
  intros Hnd segs. subst segs. rewrite aggregateLocationEvents_loop. simpl.
  destruct (one_open_loop _ _ _ one_open_init Hnd) as (tr & Hc & _ & Hcl & Hin).
  set (st := loop (locationEvents events) (Loop.mk [] [] None)) in *.
  assert (∀ i s, Loop.segments st !! i = Some s → StaySegment.exit_at s = None →
                 Loop.currentSegment st = Some i) as Hcur.
  { intros i s Hi Hs. destruct (decide (Loop.currentSegment st = Some i)); [done|].
    by destruct (Hcl i s Hi). }
  split.
  - intros i j s1 s2 Hi Hj H1 H2.
    pose proof (Hcur i s1 Hi H1). pose proof (Hcur j s2 Hj H2). congruence.
  - intros i j s1 s2 Hi H1 Hlt Hj. eapply Hin; eauto.
Qed.

(** ** Sorting by timestamp *)

Lemma sort_insert_perm {A} (cmp : A → A → number) x (l : list A) :
  sort_insert cmp x l ≡ₚ x :: l.
Proof.
  induction l as [|y l IH]; simpl; [done|].
  destruct (number_gt0 (cmp x y)); [|done].
  rewrite IH. apply Permutation_swap.
Qed.

Lemma Array_sort_perm {A} (cmp : A → A → number) (l : list A) : Array_sort cmp l ≡ₚ l.
Proof.
  induction l as [|x l IH]; simpl; [done|].
  unfold Array_sort in *. simpl. by rewrite sort_insert_perm, IH.
Qed.

Lemma Date_ofString_bound s t : Date_ofString s = Some t → Z.abs t <= 8640000000000000.
Proof.
  unfold Date_ofString. destruct (Date_parse s) as [ms|]; simpl; [|done].
  unfold TimeClip. destruct (Z.leb_spec (Z.abs ms) 8640000000000000); [|done].
  by intros [= <-].
Qed.

Lemma compareTs_valid a b ta tb :
  Date_ofString (RawEvent.ts a) = Some ta → Date_ofString (RawEvent.ts b) = Some tb →
  number_gt0 (compareTs a b) = (tb <? ta).
Proof.
  intros Ha Hb. unfold compareTs, getTime. rewrite Ha, Hb. cbn [Date_getTime].
  destruct (number_sub_time ta tb) as (r & -> & Hpos & _);
    [by eapply Date_ofString_bound..|].
  simpl. destruct (Z.ltb_spec 0 r), (Z.ltb_spec tb ta); lia.
Qed.

Lemma tsLe_trans a b c : tsLe a b → tsLe b c → tsLe a c.
Proof.
  intros (ta & tb & Ha & Hb & Hab) (tb' & tc & Hb' & Hc & Hbc).
  exists ta, tc. repeat split; [done..|]. rewrite Hb in Hb'. injection Hb' as <-. lia.
Qed.

Lemma sort_insert_sorted x l :
  validDate (RawEvent.ts x) → Forall (λ e, validDate (RawEvent.ts e)) l →
  StronglySorted tsLe l → StronglySorted tsLe (sort_insert compareTs x l).
Proof.
  intros [tx Hx] Hv Hs. induction l as [|y l IH]; simpl.
  { repeat constructor. }
  apply Forall_cons in Hv as [[ty Hy] Hv].
  apply StronglySorted_cons in Hs as [Hyl Hs].
  rewrite (compareTs_valid x y tx ty Hx Hy).
  destruct (Z.ltb_spec ty tx) as [Hlt|Hle].
  - apply StronglySorted_cons. split; [|by apply IH].
    rewrite sort_insert_perm. constructor; [|done].
    exists ty, tx. repeat split; [done..|lia].
  - assert (tsLe x y) as Hxy by (exists tx, ty; done).
    apply StronglySorted_cons. split; [|by apply StronglySorted_cons].
    constructor; [done|]. eapply Forall_impl; [exact Hyl|].
    intros z Hz. by eapply tsLe_trans.
Qed.

Lemma Array_sort_sorted l :
  Forall (λ e, validDate (RawEvent.ts e)) l → StronglySorted tsLe (Array_sort compareTs l).
Proof.
  induction 1 as [|x l Hx Hl IH]; [constructor|].
  unfold Array_sort in *. simpl. apply sort_insert_sorted; [done| |done].
  fold (Array_sort compareTs l). by rewrite Array_sort_perm.
Qed.

Lemma locationEvents_elem_of events e :
  e ∈ locationEvents events ↔ e ∈ events ∧ RawEvent.type e = "location".
Proof.
  unfold locationEvents. rewrite Array_sort_perm.
  rewrite !list_elem_of_In, filter_In, String.eqb_eq. done.
Qed.

Lemma locationEvents_valid events :
  Forall (λ e, RawEvent.type e = "location" → validDate (RawEvent.ts e)) events →
  Forall (λ e, validDate (RawEvent.ts e)) (locationEvents events).
Proof.
  rewrite !Forall_forall. intros Hv e He.
  apply locationEvents_elem_of in He as [He Hty]. by apply Hv.
Qed.

(** ** Durations of closed segments *)








(** ** Independence of the arrival order *)

Lemma List_filter_perm {A} (f : A → bool) (l1 l2 : list A) :
  l1 ≡ₚ l2 → List.filter f l1 ≡ₚ List.filter f l2.
Proof.
  induction 1 as [|x l1 l2 _ IH|x y l|l1 l2 l3 _ IH1 _ IH2]; simpl.
  - done.
  - destruct (f x); by rewrite IH.
  - destruct (f x), (f y); try done. apply Permutation_swap.
  - by rewrite IH1.
Qed.

Lemma NoDup_fmap_inj_on {A B} (g : A → B) (l : list A) x y :
  NoDup (g <$> l) → x ∈ l → y ∈ l → g x = g y → x = y.
Proof.
  induction l as [|z l IH]; intros Hnd Hx Hy Heq; [by apply elem_of_nil in Hx|].
  rewrite fmap_cons in Hnd. apply NoDup_cons in Hnd as [Hz Hnd].
  apply elem_of_cons in Hx as [->|Hx]; apply elem_of_cons in Hy as [->|Hy].
  - done.
  - destruct Hz. rewrite Heq. by apply list_elem_of_fmap_2.
  - destruct Hz. rewrite <-Heq. by apply list_elem_of_fmap_2.
  - by apply IH.
Qed.

(** C10: two batches that are permutations of each other, whose location
    events carry valid and pairwise distinct instants, aggregate to the same
    result: same segments and same eventIds, in the same order. *)
Theorem aggregate_order_independent events1 events2 :
  events1 ≡ₚ events2 →
  Forall (λ e, RawEvent.type e = "location" → validDate (RawEvent.ts e)) events1 →
  NoDup ((λ e, Date_ofString (RawEvent.ts e)) <$>
           List.filter (λ e, String.eqb (RawEvent.type e) "location") events1) →
  aggregateLocationEvents events1 = aggregateLocationEvents events2.
Proof.
  intros Hp Hv Hnd.
  assert (locationEvents events1 = locationEvents events2) as Heq.
  { assert (Forall (λ e, RawEvent.type e = "location" → validDate (RawEvent.ts e)) events2)
      as Hv2 by by rewrite <-Hp.
    set (loc := λ e, String.eqb (RawEvent.type e) "location") in *.
    assert (∀ events, Forall (λ e, RawEvent.type e = "location" → validDate (RawEvent.ts e))
                        events →
              Forall (λ e, validDate (RawEvent.ts e)) (List.filter loc events)) as Hvf.
    { intros events Hev. apply Forall_forall. intros e He.
      apply list_elem_of_In, filter_In in He as [He Hty].
      apply String.eqb_eq in Hty. rewrite Forall_forall in Hev.
      apply Hev; [by apply list_elem_of_In|done]. }
    unfold locationEvents. fold loc.
    apply (StronglySorted_unique_strong tsLe).
    - intros x1 x2 H1 H2 (t1 & t2 & Ht1 & Ht2 & Hle) (t2' & t1' & Ht2' & Ht1' & Hle').
      rewrite Array_sort_perm in H1. rewrite Array_sort_perm, <-(List_filter_perm _ _ _ Hp) in H2.
      apply (NoDup_fmap_inj_on _ _ x1 x2 Hnd H1 H2). simpl.
      rewrite Ht1, Ht2. f_equal. rewrite Ht1 in Ht1'. rewrite Ht2 in Ht2'.
      injection Ht1' as <-. injection Ht2' as <-. lia.
    - by apply Array_sort_sorted, Hvf.
    - by apply Array_sort_sorted, Hvf.
    - rewrite !Array_sort_perm. by apply List_filter_perm. }
  unfold aggregateLocationEvents. by rewrite Heq.
Qed.

(** ** generateDigest *)

Lemma Date_ofString_clipped s t : Date_ofString s = Some t → TimeClip t = Some t.
Proof.
  unfold Date_ofString. destruct (Date_parse s) as [ms|]; simpl; [|done].
  unfold TimeClip. destruct (Z.abs ms <=? _) eqn:E; [|done].
  intros [= <-]. by rewrite E.
Qed.

Lemma Math_min_valid events :
  events ≠ [] → Forall (λ e, validDate (RawEvent.ts e)) events →
  ∃ lo, Math_min ((λ e, getTime (RawEvent.ts e)) <$> events) = Num lo
    ∧ (∃ e, e ∈ events ∧ Date_ofString (RawEvent.ts e) = Some lo)
    ∧ ∀ e t, e ∈ events → Date_ofString (RawEvent.ts e) = Some t → lo <= t.
Proof.
  intros Hne Hv. induction Hv as [|e es [t Ht] Hv IH]; [done|]. clear Hne.
  rewrite fmap_cons. unfold Math_min. simpl. fold (Math_min ((λ e, getTime (RawEvent.ts e)) <$> es)).
  unfold getTime at 1. rewrite Ht. simpl.
  destruct es as [|e' es'].
  - exists t. simpl. split; [done|]. split.
    + exists e. split; [by left|done].
    + intros e0 t0 He0 Ht0. apply list_elem_of_singleton in He0 as ->.
      rewrite Ht in Ht0. injection Ht0 as <-. lia.
  - destruct IH as (lo & -> & (e0 & He0 & Hlo) & Hmin); [done|].
    exists (Z.min t lo). simpl. split; [done|]. split.
    + destruct (Z.min_spec t lo) as [[_ ->]|[_ ->]].
      * exists e. split; [by left|done].
      * exists e0. split; [by right|done].
    + intros e1 t1 He1 Ht1. apply elem_of_cons in He1 as [->|He1].
      * rewrite Ht in Ht1. injection Ht1 as <-. lia.
      * pose proof (Hmin e1 t1 He1 Ht1). lia.
Qed.

Lemma Math_max_valid events :
  events ≠ [] → Forall (λ e, validDate (RawEvent.ts e)) events →
  ∃ hi, Math_max ((λ e, getTime (RawEvent.ts e)) <$> events) = Num hi
    ∧ (∃ e, e ∈ events ∧ Date_ofString (RawEvent.ts e) = Some hi)
    ∧ ∀ e t, e ∈ events → Date_ofString (RawEvent.ts e) = Some t → t <= hi.
Proof.
  intros Hne Hv. induction Hv as [|e es [t Ht] Hv IH]; [done|]. clear Hne.
  rewrite fmap_cons. unfold Math_max. simpl. fold (Math_max ((λ e, getTime (RawEvent.ts e)) <$> es)).
  unfold getTime at 1. rewrite Ht. simpl.
  destruct es as [|e' es'].
  - exists t. simpl. split; [done|]. split.
    + exists e. split; [by left|done].
    + intros e0 t0 He0 Ht0. apply list_elem_of_singleton in He0 as ->.
      rewrite Ht in Ht0. injection Ht0 as <-. lia.
  - destruct IH as (hi & -> & (e0 & He0 & Hhi) & Hmax); [done|].
    exists (Z.max t hi). simpl. split; [done|]. split.
    + destruct (Z.max_spec t hi) as [[_ ->]|[_ ->]].
      * exists e0. split; [by right|done].
      * exists e. split; [by left|done].
    + intros e1 t1 He1 Ht1. apply elem_of_cons in He1 as [->|He1].
      * rewrite Ht in Ht1. injection Ht1 as <-. lia.
      * pose proof (Hmax e1 t1 He1 Ht1). lia.
Qed.

(** C1: on the empty batch [generateDigest] returns null.  On a non-empty
    batch (of events with valid timestamps) it returns a digest whose
    [event_ids] are the ids of all events of the batch, of every type, in
    batch order, and whose [period_start] and [period_end] are the ISO
    renderings of the least and the greatest instant among the [ts] of the
    whole batch. *)
Theorem generateDigest_event_ids_and_period uuid events :
  Forall (λ e, validDate (RawEvent.ts e)) events →
  generateDigest uuid [] = Normal None
  ∧ (events ≠ [] →
     ∃ digest lo hi,
       generateDigest uuid events = Normal (Some digest)
       ∧ DigestPayload.event_ids (DigestResult.payload digest) = RawEvent.event_id <$> events
       ∧ DigestPayload.period_start (DigestResult.payload digest) = Date_isoString lo
       ∧ DigestPayload.period_end (DigestResult.payload digest) = Date_isoString hi
       ∧ (∃ e, e ∈ events ∧ Date_ofString (RawEvent.ts e) = Some lo)
       ∧ (∃ e, e ∈ events ∧ Date_ofString (RawEvent.ts e) = Some hi)
       ∧ (∀ e t, e ∈ events → Date_ofString (RawEvent.ts e) = Some t → lo <= t <= hi)).
Proof.
  intros Hv. split; [done|]. intros Hne.
  destruct (Math_min_valid events Hne Hv) as (lo & Hlo & (e1 & He1 & Ht1) & Hmin).
  destruct (Math_max_valid events Hne Hv) as (hi & Hhi & (e2 & He2 & Ht2) & Hmax).
  unfold generateDigest.
  destruct events as [|e0 es]; [done|].
  change (length (e0 :: es) =? 0)%nat with false. cbv iota.
  change (map (λ e, getTime (RawEvent.ts e)) (e0 :: es))
    with ((λ e, getTime (RawEvent.ts e)) <$> (e0 :: es)).
  rewrite Hlo, Hhi. unfold Date_ofNumber.
  rewrite (Date_ofString_clipped _ _ Ht1), (Date_ofString_clipped _ _ Ht2). simpl.
  eexists _, lo, hi. split; [done|]. simpl.
  repeat split; eauto.
Qed.

(** ** buildDigestMessage *)

Lemma renderSegment_cases seg :
  (∃ exit, StaySegment.exit_at seg = Some exit ∧ exit ≠ ""
     ∧ exit ≠ StaySegment.enter_at seg ∧ renderSegment seg = renderRange seg exit)
  ∨ ((StaySegment.exit_at seg = None ∨ StaySegment.exit_at seg = Some ""
      ∨ StaySegment.exit_at seg = Some (StaySegment.enter_at seg))
     ∧ renderSegment seg = renderArrival seg).
Proof.
  unfold renderSegment, truthy, strict_ne.
  destruct (StaySegment.exit_at seg) as [exit|]; [|right; by auto].
  destruct (String.eqb_spec exit "") as [->|Hne]; [right; by auto|].
  destruct (String.eqb_spec exit (StaySegment.enter_at seg)) as [->|Hne2]; [right; by auto|].
  left. by exists exit.
Qed.

(** C6, amended: the empty list renders as the literal
    "[LocationDigest] イベントなし"; otherwise the message is
    "[LocationDigest] " followed by the renderings joined with " → ", where a
    segment renders as "<enter HH:MM>-<exit HH:MM> <place_id>" exactly when
    its [exit_at] is a non-empty string different, as a string, from its
    [enter_at], and as "<enter HH:MM> <place_id>到着" in every other case
    ([exit_at] null, empty, or the same string as [enter_at]). *)
Theorem buildDigestMessage_rendering segments :
  buildDigestMessage [] = "[LocationDigest] イベントなし"
  ∧ (segments ≠ [] →
     ∃ parts,
       buildDigestMessage segments = "[LocationDigest] " +:+ Array_join " → " parts
       ∧ length parts = length segments
       ∧ ∀ i seg, segments !! i = Some seg →
           ∃ part, parts !! i = Some part
             ∧ ((∃ exit, StaySegment.exit_at seg = Some exit ∧ exit ≠ ""
                   ∧ exit ≠ StaySegment.enter_at seg
                   ∧ part = formatTime (StaySegment.enter_at seg) +:+ "-"
                              +:+ formatTime exit +:+ " " +:+ StaySegment.place_id seg)
                ∨ ((StaySegment.exit_at seg = None ∨ StaySegment.exit_at seg = Some ""
                    ∨ StaySegment.exit_at seg = Some (StaySegment.enter_at seg))
                   ∧ part = formatTime (StaySegment.enter_at seg) +:+ " "
                              +:+ StaySegment.place_id seg +:+ "到着"))).
Proof.
  split; [done|]. intros Hne.
  exists (map renderSegment segments). split; [by destruct segments|].
  split; [apply length_map|].
  intros i seg Hi. exists (renderSegment seg). split.
  - change (map renderSegment segments) with (renderSegment <$> segments).
    by rewrite list_lookup_fmap, Hi.
  - destruct (renderSegment_cases seg) as [(exit & ? & ? & ? & ->)|[? ->]]; [left|right]; eauto.
Qed.

Lemma renderSegment_canonical seg :
  canonicalSegment seg → renderSegment seg = spec_renderSegment seg.
Proof.
  intros Hc. unfold canonicalSegment in Hc.
  unfold renderSegment, spec_renderSegment, hasNonZeroSpanClose, truthy, strict_ne.
  destruct (StaySegment.exit_at seg) as [exit|]; [|done].
  destruct (Hc exit eq_refl) as (Hne & a & b & Ha & Hb & Hab).
  unfold getTime. rewrite Ha, Hb. cbn [Date_getTime default].
  destruct (number_sub_time b a) as (r & -> & _ & Hzero);
    [by eapply Date_ofString_bound..|].
  rewrite (proj2 (String.eqb_neq exit "") Hne). simpl.
  destruct (String.eqb_spec exit (StaySegment.enter_at seg)) as [Heq|Hneq]; simpl.
  - rewrite Heq, Ha in Hb. injection Hb as <-.
    by rewrite (proj2 Hzero eq_refl).
  - destruct (Z.eqb_spec r 0) as [H0|_]; [|done].
    destruct Hneq. apply Hab. symmetry. by apply Hzero.
Qed.

(** X1: on segments whose timestamps are valid and canonically written,
    [buildDigestMessage] renders by the rule of the specification: a range
    for a close of non-zero span, an arrival otherwise. *)
Theorem buildDigestMessage_meets_spec segments :
  Forall canonicalSegment segments →
  buildDigestMessage segments = spec_buildDigestMessage segments.
Proof.
  intros Hc. unfold buildDigestMessage, spec_buildDigestMessage.
  destruct segments as [|seg segs]; [done|].
  change (length (seg :: segs) =? 0)%nat with false. cbv iota. do 2 f_equal.
  induction Hc as [|s l Hs Hl IH]; [done|]. simpl.
  by rewrite IH, renderSegment_canonical.
Qed.

(** ** The ids consumed by the scan *)



(** ** buildOpenClawPayload *)

(** C9: the body sent to the sink is exactly
    {message: "[digest:<digest_id>] <message>", name: "EventDigest",
     wakeMode: "now", deliver: true, channel: "last"};
    in particular the digest identifier occurs in the outgoing message. *)
Theorem buildOpenClawPayload_wire_body digest :
  buildOpenClawPayload digest =
    OpenClawPayload.mk
      ("[digest:" +:+ DigestResult.digest_id digest +:+ "] " +:+ DigestResult.message digest)
      "EventDigest" "now" true "last"
  ∧ ∃ before after,
      OpenClawPayload.message (buildOpenClawPayload digest) =
        before +:+ DigestResult.digest_id digest +:+ after.
Proof.
  split; [done|]. by exists "[digest:", ("] " +:+ DigestResult.message digest).
Qed.

End DigestWorkerProperties.

(** ** validateEventEnvelope *)

Section ValidationProperties.
Context {date : DateAPI}.

Lemma pushIf_nil cond errors msg :
  pushIf cond errors msg = [] ↔ cond = false ∧ errors = [].
Proof.
  unfold pushIf. destruct cond.
  - split; [|by intros [? _]]. intros Happ. by apply app_eq_nil in Happ as [_ ?].
  - naive_solver.
Qed.

Lemma payload_rule (v : value) :
  negb (truthyValue v) || negb (String.eqb (typeof v) "object") || Array_isArray v = false
  ↔ ∃ fields, v = Some (JObject fields).
Proof.
  destruct v as [[| [] | n | s | items | fields]|]; simpl; try naive_solver.
  - destruct (n =? 0); naive_solver.
  - destruct (String.eqb s ""); naive_solver.
Qed.

(** X2: when [event_id] is absent, null or a string, the validator returns
    normally, and its list of violations is empty exactly when the envelope
    rules hold. *)
Theorem validateEventEnvelope_exact body :
  match getProp body "event_id" with
  | None | Some JNull | Some (JString _) => True
  | _ => False
  end →
  ∃ errors, validateEventEnvelope body = Normal errors
    ∧ (errors = [] ↔ envelopeRulesPass body).
Proof.
  intros Hid. unfold envelopeRulesPass.
  destruct body as [| b | n | s | items | fields];
    try (eexists; split; [reflexivity|]; split; [done|]; by intros [[? ?] _]).
  - unfold validateEventEnvelope. simpl. destruct b; simpl;
      (eexists; split; [reflexivity|]; split; [done|]; by intros [[? ?] _]).
  - unfold validateEventEnvelope. simpl. destruct (n =? 0); simpl;
      (eexists; split; [reflexivity|]; split; [done|]; by intros [[? ?] _]).
  - unfold validateEventEnvelope. simpl. destruct (String.eqb s ""); simpl;
      (eexists; split; [reflexivity|]; split; [done|]; by intros [[? ?] _]).
  - unfold validateEventEnvelope.
    change (negb (truthyValue (Some (JObject fields)))
            || negb (String.eqb (typeof (Some (JObject fields))) "object")
            || Array_isArray (Some (JObject fields))) with false. cbv iota.
    set (body := JObject fields) in *.
    assert (∃ id, ToString (nullish (getProp body "event_id") (JString "")) = Normal id
              ∧ (UUID_V4_REGEX_test id = true ↔
                 ∃ id', getProp body "event_id" = Some (JString id')
                   ∧ UUID_V4_REGEX_test id' = true)) as (id & -> & Hrule).
    { destruct (getProp body "event_id") as [[| | | id | |]|]; try done; simpl.
      - exists "". split; [done|]. split; [done|]. by intros (? & ? & ?).
      - exists id. split; [done|]. naive_solver.
      - exists "". split; [done|]. split; [done|]. by intros (? & ? & ?). }
    eexists. split; [reflexivity|].
    rewrite !pushIf_nil, payload_rule.
    split.
    + intros (Hmeta & Hdev & Hpl & Hts & Hty & Hid' & _).
      split; [by eexists|]. split; [by apply Hrule, negb_false_iff|].
      split; [|split; [|split; [done|split]]].
      * destruct (getProp body "type") as [[| | | ty | |]|]; try done. by exists ty.
      * apply negb_false_iff in Hts.
        destruct (getProp body "ts") as [[| | | ts | |]|]; try done.
        exists ts. split; [done|]. by apply bool_decide_eq_true in Hts.
      * destruct (getProp body "device_id") as [[| | | d | |]|]; try done; eauto.
      * destruct (getProp body "meta") as [v|]; [|by left]. right.
        by apply payload_rule.
    + intros (_ & Hid' & (ty & Hty & Hblank) & (ts & Hts & Hvalid) & Hpl & Hdev & Hmeta).
      split; [|split; [|split; [done|split; [|split; [|split; [|done]]]]]].
      * destruct Hmeta as [->|[f ->]]; done.
      * destruct Hdev as [->|[d ->]]; done.
      * rewrite Hts. simpl. apply negb_false_iff. by apply bool_decide_eq_true.
      * by rewrite Hty.
      * apply negb_false_iff. by apply Hrule.
Qed.

End ValidationProperties.

(** ** POST /events/process *)

Section ProcessEventsProperties.
Context {date : DateAPI}.
Variable zod_uuid : string → bool.

Implicit Types (table : list EventRow.t) (row : EventRow.t) (ids : list string).

Lemma updateMany_eq ids now table :
  updateMany ids now table =
  (markRow ids now <$> table, length (List.filter (matchesWhere ids) table)).
Proof. done. Qed.

Lemma matchesWhere_markRow ids now now' row :
  matchesWhere ids (markRow ids now row) = false
  ∧ markRow ids now' (markRow ids now row) = markRow ids now row.
Proof.
  unfold markRow. destruct (matchesWhere ids row) eqn:E.
  - unfold matchesWhere. simpl. by rewrite andb_false_r.
  - by rewrite E.
Qed.

Lemma updateMany_again ids now now' table :
  updateMany ids now' (updateMany ids now table).1 = ((updateMany ids now table).1, O).
Proof.
  rewrite !updateMany_eq. simpl. f_equal.
  - rewrite <-list_fmap_compose. apply list_fmap_ext. intros i row _. simpl.
    apply matchesWhere_markRow.
  - induction table as [|row table IH]; [done|]. simpl.
    by rewrite (proj1 (matchesWhere_markRow ids now now row)).
Qed.

Lemma updateMany_count ids now table :
  unprocessed table = ((updateMany ids now table).2 + unprocessed (updateMany ids now table).1)%nat.
Proof.
  rewrite updateMany_eq. unfold unprocessed. simpl.
  induction table as [|row table IH]; [done|]. simpl. unfold markRow at 1.
  destruct (matchesWhere ids row) eqn:E; simpl.
  - unfold matchesWhere in E. apply andb_true_iff in E as [_ E].
    destruct (EventRow.processedAt row); [done|]. simpl. by rewrite IH.
  - destruct (EventRow.processedAt row); unfold fmap in *; simpl in *; lia.
Qed.

(** C8: a successful call of [POST /events/process] changes only rows whose
    [processedAt] was null and whose id is among the requested ids (a changed
    row gets [processedAt] = now and keeps its id), and reports as
    [processed_count] the number of rows that went from unprocessed to
    processed.  Calling it again with the same body is answered with status
    200 and [processed_count] 0, and leaves the table, so every
    [processedAt], as it is. *)
Theorem markProcessed_idempotent (body : value) now1 now2 table count at1 table1 :
  postEventsProcess zod_uuid body now1 table = (Processed count at1, table1) →
  length table1 = length table
  ∧ (∃ ids, processEventsSchema zod_uuid body = Some ids
       ∧ ∀ i row, table !! i = Some row →
           ∃ row1, table1 !! i = Some row1
             ∧ EventRow.eventId row1 = EventRow.eventId row
             ∧ (EventRow.processedAt row ≠ None → row1 = row)
             ∧ (row1 ≠ row →
                  EventRow.processedAt row = None
                  ∧ EventRow.processedAt row1 = Some now1
                  ∧ EventRow.eventId row ∈ ids))
  ∧ (unprocessed table = count + unprocessed table1)%nat
  ∧ postEventsProcess zod_uuid body now2 table1 = (Processed O (Date_isoString now2), table1).
Proof.
  unfold postEventsProcess.
  destruct (processEventsSchema zod_uuid body) as [ids|]; [|done].
  pose proof (updateMany_count ids now1 table) as Hcount.
  pose proof (updateMany_again ids now1 now2 table) as Hagain.
  destruct (updateMany ids now1 table) as [t1 n1] eqn:Hupd.
  rewrite updateMany_eq in Hupd. injection Hupd as Ht1 Hn1.
  simpl in *. intros [= <- _ <-].
  split; [|split; [|split]].
  - rewrite <-Ht1. apply length_fmap.
  - exists ids. split; [done|].
    intros i row Hi. exists (markRow ids now1 row).
    split; [by rewrite <-Ht1, list_lookup_fmap, Hi|].
    unfold markRow, matchesWhere.
    destruct (existsb _ ids) eqn:Hex; simpl; [|done].
    destruct (EventRow.processedAt row) eqn:E; simpl; [done|].
    split; [done|]. split; [done|]. intros _. split; [done|]. split; [done|].
    apply existsb_exists in Hex as (id & Hin & Heq).
    apply String.eqb_eq in Heq as ->. by apply list_elem_of_In.
  - done.
  - unfold updateMany in Hagain. injection Hagain as Hrows Hcnt.
    unfold updateMany. simpl. by rewrite Hrows, Hcnt.
Qed.

End ProcessEventsProperties.

(** ** createHandler with the in-memory repository *)

Section HandlerProperties.
Context {date : DateAPI}.

Implicit Types (store : list (value * json)) (envelope : list (string * json)).

Lemma Map_set_fresh store key v :
  Map_has store key = false → Map_set store key v = store ++ [(key, v)].
Proof.
  induction store as [|[k old] store IH]; simpl; [done|].
  intros Hhas. apply orb_false_iff in Hhas as [Hk Hrest].
  by rewrite Hk, IH.
Qed.

Lemma Map_has_app store store' key :
  Map_has (store ++ store') key = Map_has store key || Map_has store' key.
Proof. unfold Map_has. apply existsb_app. Qed.

Lemma validateEventEnvelope_nil_object body errors :
  validateEventEnvelope body = Normal errors → (0 <? length errors)%nat = false →
  ∃ envelope, body = JObject envelope.
Proof.
  destruct body as [| [] | n | s | items | envelope]; try (by intros [= <-]).
  - unfold validateEventEnvelope. simpl. destruct (n =? 0); by intros [= <-].
  - unfold validateEventEnvelope. simpl. destruct (String.eqb s ""); by intros [= <-].
  - by exists envelope.
Qed.

Lemma authorized_header (authorization : option string) token :
  String.eqb (default "" authorization) ("Bearer " +:+ token) = true
  ↔ authorization = Some ("Bearer " +:+ token).
Proof.
  rewrite String.eqb_eq. destruct authorization as [h|]; simpl; [naive_solver|].
  split; done.
Qed.

(** X4: whatever the request, the handler leaves the store as it is, except
    when it answers an authorized [POST /events] whose body is an object
    without violations and whose [event_id] is not a key of the store: then
    it answers 200 [{ok: true, duplicate: false}] and appends one entry,
    keyed by that [event_id].  In particular no reply with status 400, 401,
    404 or a duplicate comes with a write. *)
Theorem handler_writes_only_new_events token now req store :
  (handler InMemoryEventRepository token now req store).2 = store
  ∨ ∃ envelope,
      Request.method req = "POST" ∧ Request.url req = "/events"
      ∧ Request.authorization req = Some ("Bearer " +:+ token)
      ∧ readJsonBody (Request.body req) = Normal (JObject envelope)
      ∧ validateEventEnvelope (JObject envelope) = Normal []
      ∧ Map_has store (ownProperty "event_id" envelope) = false
      ∧ handler InMemoryEventRepository token now req store =
          (Replied 200 (JObject [("ok", JBool true); ("duplicate", JBool false)]),
           store ++ [(ownProperty "event_id" envelope, storedEvent now envelope)]).
Proof.
  unfold handler.
  destruct (String.eqb (Request.method req) "GET" && String.eqb (Request.url req) "/healthz");
    [by left|].
  destruct (String.eqb_spec (Request.method req) "POST") as [Hm|_]; [|by left].
  destruct (String.eqb_spec (Request.url req) "/events") as [Hu|_]; [|by left].
  simpl.
  destruct (String.eqb (default "" (Request.authorization req)) ("Bearer " +:+ token))
    eqn:Hauth; [|by left].
  apply authorized_header in Hauth. simpl.
  destruct (readJsonBody (Request.body req)) as [body|] eqn:Hbody; [|by left].
  destruct (validateEventEnvelope body) as [errors|] eqn:Hval; [|by left].
  destruct (0 <? length errors)%nat eqn:Herr; [by left|].
  destruct (validateEventEnvelope_nil_object _ _ Hval Herr) as [envelope ->].
  simpl. unfold InMemory_insertEvent.
  destruct (Map_has store (ownProperty "event_id" envelope)) eqn:Hhas; [by left|].
  right. exists envelope. rewrite (Map_set_fresh _ _ _ Hhas).
  destruct errors; [|done]. done.
Qed.

(** X5: an authorized [POST /events] whose body is an object without
    violations and with a string [event_id] is answered with 200 and
    [duplicate] telling whether that id was stored before; the same request
    sent again is answered [{ok: true, duplicate: true}] and leaves the store
    as the first one left it. *)
Theorem handler_deduplicates token now1 now2 req envelope id store :
  Request.method req = "POST" → Request.url req = "/events" →
  Request.authorization req = Some ("Bearer " +:+ token) →
  readJsonBody (Request.body req) = Normal (JObject envelope) →
  validateEventEnvelope (JObject envelope) = Normal [] →
  ownProperty "event_id" envelope = Some (JString id) →
  ∃ store1,
    handler InMemoryEventRepository token now1 req store =
      (Replied 200
         (JObject [("ok", JBool true);
                   ("duplicate", JBool (Map_has store (Some (JString id))))]), store1)
    ∧ handler InMemoryEventRepository token now2 req store1 =
        (Replied 200 (JObject [("ok", JBool true); ("duplicate", JBool true)]), store1).
Proof.
  intros Hm Hu Ha Hbody Hval Hid.
  assert (∀ now st, handler InMemoryEventRepository token now req st =
    (Replied 200
       (JObject [("ok", JBool true);
                 ("duplicate", JBool (negb (InMemory_insertEvent now envelope st).1))]),
     (InMemory_insertEvent now envelope st).2)) as Hhandler.
  { intros now st. unfold handler. rewrite Hm, Hu, Ha, Hbody, Hval. simpl.
    by rewrite String.eqb_refl. }
  rewrite !Hhandler. unfold InMemory_insertEvent. rewrite Hid.
  destruct (Map_has store (Some (JString id))) eqn:Hhas; simpl.
  - exists store. split; [done|]. rewrite Hhandler. unfold InMemory_insertEvent.
    by rewrite Hid, Hhas.
  - eexists. split; [done|]. rewrite Hhandler. unfold InMemory_insertEvent.
    rewrite Hid, (Map_set_fresh _ _ _ Hhas), Map_has_app. simpl.
    by rewrite String.eqb_refl, orb_true_r.
Qed.

(** X6: an [event_id] that is an array passes the validator when it converts
    to a UUID string, but it is never found among the keys of the store: every
    such request is answered [duplicate: false] and adds one more entry,
    however often the same body is sent. *)
Theorem handler_does_not_deduplicate_array_ids token now req envelope items store :
  Request.method req = "POST" → Request.url req = "/events" →
  Request.authorization req = Some ("Bearer " +:+ token) →
  readJsonBody (Request.body req) = Normal (JObject envelope) →
  validateEventEnvelope (JObject envelope) = Normal [] →
  ownProperty "event_id" envelope = Some (JArray items) →
  handler InMemoryEventRepository token now req store =
    (Replied 200 (JObject [("ok", JBool true); ("duplicate", JBool false)]),
     store ++ [(Some (JArray items), storedEvent now envelope)]).
Proof.
  intros Hm Hu Ha Hbody Hval Hid.
  unfold handler. rewrite Hm, Hu, Ha, Hbody, Hval. simpl. rewrite String.eqb_refl. simpl.
  unfold InMemory_insertEvent. rewrite Hid.
  assert (Map_has store (Some (JArray items)) = false) as Hhas.
  { unfold Map_has. induction store as [|[[[]|] ?] store IH]; simpl; done. }
  by rewrite Hhas, (Map_set_fresh _ _ _ Hhas).
Qed.

End HandlerProperties.

(** ** One run of the worker *)

Section WorkerProperties.
Context {date : DateAPI}.
Variable W : Type.
Variable fetch : FetchRequest.t → W → completion Response.t * W.
Variable randomUUID : W → string * W.

Implicit Types (log : list (FetchRequest.t * completion Response.t)).
Implicit Types (s : RunState W) (req : FetchRequest.t).

Lemma awaitFetch_eq req s :
  awaitFetch W fetch req s =
  (match (fetch req s.1).1 with Normal res => Some res | Throw _ => None end,
   ((fetch req s.1).2, s.2 ++ [(req, (fetch req s.1).1)])).
Proof. unfold awaitFetch. by destruct (fetch req s.1) as [[res|err] w]. Qed.

Lemma sentAfterDelivery_nil baseUrl : sentAfterDelivery baseUrl [].
Proof. by intros [|i] req res Hi. Qed.

Lemma sentAfterDelivery_snoc baseUrl log x :
  sentAfterDelivery baseUrl log → FetchRequest.body x.1 ≠ EmptyObjectBody →
  sentAfterDelivery baseUrl (log ++ [x]).
Proof.
  intros Hlog Hx i req res Hi Hbody.
  apply lookup_snoc_Some in Hi as [[_ Hi]|[_ ->]]; [|done].
  destruct (Hlog i req res Hi Hbody) as (j & hook & hres & id & msg & -> & Hj & Hrest).
  exists j, hook, hres, id, msg. split; [done|]. split; [|done].
  by apply lookup_app_l_Some.
Qed.

Lemma sentAfterDelivery_sent baseUrl log hook hres id msg authorization sres :
  sentAfterDelivery baseUrl log →
  FetchRequest.body hook =
    HookBody (OpenClawPayload.mk ("[digest:" +:+ id +:+ "] " +:+ msg)
                "EventDigest" "now" true "last") →
  Response.ok hres = true →
  sentAfterDelivery baseUrl
    ((log ++ [(hook, Normal hres)]) ++ [(sentRequest baseUrl authorization id, sres)]).
Proof.
  intros Hlog Hhook Hok i req res Hi Hbody.
  apply lookup_snoc_Some in Hi as [[_ Hi]|[Hlen [= <- <-]]].
  - assert (sentAfterDelivery baseUrl (log ++ [(hook, Normal hres)])) as Hlog'.
    { apply sentAfterDelivery_snoc; [done|]. simpl. by rewrite Hhook. }
    destruct (Hlog' i req res Hi Hbody) as (j & h & r & id' & msg' & -> & Hj & Hrest).
    exists j, h, r, id', msg'. split; [done|]. split; [|done].
    by apply lookup_app_l_Some.
  - exists (length log), hook, hres, id, msg.
    split; [by rewrite Hlen, length_app; simpl; lia|].
    split; [|done]. apply lookup_app_l_Some, lookup_snoc_new.
Qed.

Lemma retryLoop_sentAfterDelivery baseUrl authorization url token current ds : ∀ s,
  sentAfterDelivery baseUrl s.2 →
  sentAfterDelivery baseUrl
    (retryLoop W fetch baseUrl authorization url token current ds s).2.2.
Proof.
  induction ds as [|u ds IH]; intros s Hs; [done|]. simpl.
  destruct (String.eqb (UnsentDigest.digest_id u) current); [by apply IH|].
  unfold bind at 1. rewrite awaitFetch_eq.
  destruct (fetch _ s.1) as [[res|err] w]; simpl.
  - destruct (Response.ok res) eqn:Hok.
    + unfold bind at 1. rewrite awaitFetch_eq. simpl.
      destruct (fetch _ w) as [[res'|err'] w']; simpl.
      * apply IH. simpl. by apply (sentAfterDelivery_sent _ _ _ res (UnsentDigest.digest_id u) (UnsentDigest.message u)).
      * by apply (sentAfterDelivery_sent _ _ _ res (UnsentDigest.digest_id u) (UnsentDigest.message u)).
    + apply IH. simpl. by apply sentAfterDelivery_snoc.
  - by apply sentAfterDelivery_snoc.
Qed.

#[local] Arguments app : simpl never.

Ltac log_ok :=
  repeat first
    [ apply sentAfterDelivery_nil
    | apply sentAfterDelivery_snoc; [|simpl; discriminate]
    | eapply sentAfterDelivery_sent; [|reflexivity|eassumption]
    | apply retryLoop_sentAfterDelivery; simpl ].

(** Runs [main] symbolically: one case per answer of the world. *)
Ltac run_main :=
  repeat
    (unfold bind, awaitFetch, generateUUID, exit1, ret; simpl;
     match goal with
     | |- context [fetch ?r ?w] =>
         let res := fresh "res" in destruct (fetch r w) as [[res|?] ?]
     | |- context [Response.ok ?r] => destruct (Response.ok r) eqn:?
     | |- context [match Response.json ?r with _ => _ end] =>
         destruct (Response.json r) eqn:?
     | |- context [(length ?l =? 0)%nat] => destruct (length l =? 0)%nat eqn:?
     | |- context [generateDigest ?u ?l] => destruct (generateDigest u l) as [[?|]|] eqn:?
     | |- context [truthy ?v] => destruct (truthy v) eqn:?
     end); simpl.

(** X7: in every run, a mark-sent request ([POST /digests/<id>/sent]) is made
    only right after a post to the sink that was answered with success and
    whose message starts with "[digest:<id>] ": no digest is marked sent
    without a confirmed delivery of that digest. *)
Theorem main_marks_sent_only_after_delivery env w0 :
  sentAfterDelivery (default "http://localhost:3000" (Env.EVENT_API_URL env))
    (main W fetch randomUUID env (w0, [])).2.2.
Proof.
  unfold main. run_main; log_ok.
Qed.

(** *** What the retry loop adds to the log *)

Lemma retryLoop_extends baseUrl authorization url token current ds : ∀ s,
  ∃ more,
    (retryLoop W fetch baseUrl authorization url token current ds s).2.2 = s.2 ++ more
    ∧ Forall (λ x, ∃ u, u ∈ ds
                ∧ (x.1 = hookRequest url token (retryPayload u)
                   ∨ x.1 = sentRequest baseUrl authorization (UnsentDigest.digest_id u)))
        more.
Proof.
  induction ds as [|u ds IH]; intros s.
  { exists []. split; [by rewrite app_nil_r|constructor]. }
  assert (∀ s' new,
    s'.2 = s.2 ++ new →
    Forall (λ x, ∃ u', u' ∈ u :: ds
              ∧ (x.1 = hookRequest url token (retryPayload u')
                 ∨ x.1 = sentRequest baseUrl authorization (UnsentDigest.digest_id u'))) new →
    ∃ more,
      (retryLoop W fetch baseUrl authorization url token current ds s').2.2 = s.2 ++ more
      ∧ Forall (λ x, ∃ u', u' ∈ u :: ds
                  ∧ (x.1 = hookRequest url token (retryPayload u')
                     ∨ x.1 = sentRequest baseUrl authorization (UnsentDigest.digest_id u')))
          more) as Hrest.
  { intros s' new Hs' Hnew. destruct (IH s') as (more & -> & Hmore).
    exists (new ++ more). rewrite Hs', <-app_assoc. split; [done|].
    apply Forall_app. split; [done|].
    eapply Forall_impl; [exact Hmore|]. intros x (u' & Hu' & Hx).
    exists u'. split; [by right|done]. }
  assert (u ∈ u :: ds) as Hu by by left.
  simpl. destruct (String.eqb (UnsentDigest.digest_id u) current).
  { apply (Hrest s []); [by rewrite app_nil_r|constructor]. }
  unfold bind at 1. rewrite awaitFetch_eq.
  destruct (fetch _ s.1) as [[res|err] w]; simpl.
  - destruct (Response.ok res).
    + unfold bind at 1. rewrite awaitFetch_eq. simpl.
      destruct (fetch _ w) as [[res'|err'] w']; simpl.
      * eapply Hrest; [simpl; by rewrite <-app_assoc|].
        repeat constructor; eauto.
      * eexists. split; [by rewrite <-app_assoc|]. repeat constructor; eauto.
    + eapply Hrest; [done|]. repeat constructor; eauto.
  - eexists. split; [done|]. repeat constructor; eauto.
Qed.

Lemma generateDigest_ids uuid events digest :
  generateDigest uuid events = Normal (Some digest) →
  DigestPayload.event_ids (DigestResult.payload digest) = map RawEvent.event_id events
  ∧ DigestResult.digest_id digest = uuid.
Proof.
  unfold generateDigest. destruct (length events =? 0)%nat; [done|].
  destruct (toISOString _); [|done]. destruct (toISOString _); [|done].
  by intros [= <-].
Qed.

(** *** Delivery comes after persistence *)

Lemma persisted_app baseUrl log more :
  persisted baseUrl log → noHook (take 3 log) = true →
  persisted baseUrl (log ++ more) ∧ noHook (take 3 (log ++ more)) = true.
Proof.
  intros (eventsReq & eventsRes & events & authorization & digest_id & payload & message
          & digestRes & processRes & H0 & Hok0 & Hjson & H1 & Hok1 & Hids & H2 & Hok2) Hno.
  split.
  - exists eventsReq, eventsRes, events, authorization, digest_id, payload, message,
      digestRes, processRes.
    repeat split; try done; by apply lookup_app_l_Some.
  - apply lookup_lt_Some in H2. by rewrite take_app_le by lia.
Qed.

Lemma noHook_lookup log i req res :
  noHook log = true → log !! i = Some (req, res) → isHookBody (FetchRequest.body req) = false.
Proof.
  intros Hno Hi. unfold noHook in Hno. rewrite forallb_forall in Hno.
  apply negb_true_iff, (Hno (req, res)), list_elem_of_In. by eapply list_elem_of_lookup_2.
Qed.

Lemma main_persisted_or_no_hook env w0 :
  let log := (main W fetch randomUUID env (w0, [])).2.2 in
  noHook log = true
  ∨ (persisted (default "http://localhost:3000" (Env.EVENT_API_URL env)) log
     ∧ noHook (take 3 log) = true).
Proof.
  cbv zeta. unfold main. run_main;
    try (left; reflexivity);
    right;
    match goal with
    | Hd : generateDigest _ _ = Normal (Some _) |- _ =>
        destruct (generateDigest_ids _ _ _ Hd) as [Hids _]
    end;
    first
      [ match goal with
        | |- context [(retryLoop W fetch ?b ?a ?u ?t ?c ?ds ?s).2.2] =>
            destruct (retryLoop_extends b a u t c ds s) as (more & -> & _)
        end; apply persisted_app
      | split ];
    try reflexivity;
    rewrite Hids;
    unfold persisted; do 9 eexists;
    (split; [reflexivity|]); repeat split; try eassumption; try reflexivity.
Qed.

(** X8: a run posts to the sink only after it has persisted its digest: when
    the log holds a post to the sink, its first three exchanges are the fetch
    of the batch, the post of a digest carrying the ids of the whole batch and
    the post that marks these ids processed, all three answered with success,
    and the post to the sink comes after them. *)
Theorem main_delivers_only_after_persisting env w0 i req res payload :
  (main W fetch randomUUID env (w0, [])).2.2 !! i = Some (req, res) →
  FetchRequest.body req = HookBody payload →
  persisted (default "http://localhost:3000" (Env.EVENT_API_URL env))
    (main W fetch randomUUID env (w0, [])).2.2
  ∧ (3 ≤ i)%nat.
Proof.
  intros Hi Hbody.
  assert (isHookBody (FetchRequest.body req) = true) as Hhook by by rewrite Hbody.
  destruct (main_persisted_or_no_hook env w0) as [Hno|[Hp Hno]].
  { by rewrite (noHook_lookup _ _ _ _ Hno Hi) in Hhook. }
  split; [done|].
  destruct (decide (i < 3)%nat) as [Hlt|]; [|lia].
  assert (take 3 (main W fetch randomUUID env (w0, [])).2.2 !! i = Some (req, res)) as Hi'
    by by rewrite lookup_take_lt.
  by rewrite (noHook_lookup _ _ _ _ Hno Hi') in Hhook.
Qed.

(** *** Credentials *)

Lemma prefix_append (s t : string) : String.prefix s (s +:+ t) = true.
Proof.
  induction s as [|c s IH]; simpl; [by destruct t|].
  destruct (ascii_dec c c); [done|congruence].
Qed.

Lemma credentialsMatch_api baseUrl token url octoken path method body :
  isHookBody body = false →
  credentialsMatch baseUrl token url octoken
    (FetchRequest.mk (baseUrl +:+ path) method ("Bearer " +:+ token) body) = true.
Proof.
  intros Hbody. unfold credentialsMatch. simpl. rewrite Hbody.
  by rewrite prefix_append, String.eqb_refl.
Qed.

Lemma credentialsMatch_hook baseUrl token url octoken payload :
  credentialsMatch baseUrl token url octoken (hookRequest url octoken payload) = true.
Proof. unfold credentialsMatch. simpl. by rewrite !String.eqb_refl. Qed.

Lemma credentialsMatch_retryLoop baseUrl token url octoken current ds s :
  Forall (λ x, credentialsMatch baseUrl token url octoken x.1 = true) s.2 →
  Forall (λ x, credentialsMatch baseUrl token url octoken x.1 = true)
    (retryLoop W fetch baseUrl ("Bearer " +:+ token) url octoken current ds s).2.2.
Proof.
  intros Hs.
  destruct (retryLoop_extends baseUrl ("Bearer " +:+ token) url octoken current ds s)
    as (more & -> & Hmore).
  apply Forall_app. split; [done|].
  eapply Forall_impl; [exact Hmore|]. intros x (u & _ & [-> | ->]).
  - apply credentialsMatch_hook.
  - unfold sentRequest. by apply credentialsMatch_api.
Qed.

(** X9: every request of a run carries the credential of the service it goes
    to: a post with a hook payload goes to OPENCLAW_HOOK_URL with
    OPENCLAW_HOOK_TOKEN, and every other request goes to a URL that extends
    the base URL of the Event API, with EVENT_API_TOKEN. *)
Theorem main_credentials_stay_with_their_service env w0 :
  Forall
    (λ x, credentialsMatch
            (default "http://localhost:3000" (Env.EVENT_API_URL env))
            (default "" (Env.EVENT_API_TOKEN env))
            (default "" (Env.OPENCLAW_HOOK_URL env))
            (default "" (Env.OPENCLAW_HOOK_TOKEN env)) x.1 = true)
    (main W fetch randomUUID env (w0, [])).2.2.
Proof.
  unfold main. run_main;
    repeat first
      [ apply Forall_nil_2
      | apply credentialsMatch_retryLoop; simpl
      | apply Forall_app; split
      | apply Forall_cons; split; simpl
      | apply credentialsMatch_hook
      | by apply credentialsMatch_api ].
Qed.

(** *** The payloads of the retry loop *)

Lemma hookBodies_snoc log x :
  hookBodies (log ++ [x]) =
  hookBodies log ++ match FetchRequest.body x.1 with HookBody p => [p] | _ => [] end.
Proof. unfold hookBodies. rewrite omap_app. simpl. by destruct (FetchRequest.body x.1). Qed.

(** X10: the retry loop posts to the sink the retry payloads of the unsent
    digests other than the one generated in this run, in the order of the
    list and each once, up to the point where a request is rejected; when the
    loop runs to its end, it has posted all of them. *)
Theorem retryLoop_posts_the_other_digests baseUrl authorization url token current ds s :
  let result := retryLoop W fetch baseUrl authorization url token current ds s in
  let others :=
    List.filter (λ u, negb (String.eqb (UnsentDigest.digest_id u) current)) ds in
  (∃ k, hookBodies result.2.2 = hookBodies s.2 ++ map retryPayload (take k others))
  ∧ (result.1 = Some tt →
     hookBodies result.2.2 = hookBodies s.2 ++ map retryPayload others).
Proof.
  cbv zeta. revert s. induction ds as [|u ds IH]; intros s.
  { simpl. split; [exists 0%nat|]; by rewrite app_nil_r. }
  simpl. destruct (String.eqb (UnsentDigest.digest_id u) current); simpl; [apply IH|].
  assert (∀ s',
    hookBodies s'.2 = hookBodies s.2 ++ [retryPayload u] →
    let result := retryLoop W fetch baseUrl authorization url token current ds s' in
    let others :=
      List.filter (λ u, negb (String.eqb (UnsentDigest.digest_id u) current)) ds in
    (∃ k, hookBodies result.2.2 =
            hookBodies s.2 ++ map retryPayload (take k (u :: others)))
    ∧ (result.1 = Some tt →
       hookBodies result.2.2 = hookBodies s.2 ++ retryPayload u :: map retryPayload others))
    as Hrest.
  { intros s' Hs'. cbv zeta. destruct (IH s') as [[k Hk] Hall]. rewrite Hs' in Hk, Hall.
    split.
    - exists (S k). by rewrite Hk, <-app_assoc.
    - intros Hdone. by rewrite (Hall Hdone), <-app_assoc. }
  unfold bind. rewrite !awaitFetch_eq.
  destruct (fetch _ s.1) as [[res|err] w]; simpl.
  - destruct (Response.ok res).
    + rewrite !awaitFetch_eq. simpl.
      destruct (fetch _ w) as [[res'|err'] w']; simpl.
      * apply Hrest. simpl. by rewrite !hookBodies_snoc, app_nil_r.
      * split; [|done]. exists 1%nat. by rewrite !hookBodies_snoc, app_nil_r.
    + apply Hrest. simpl. by rewrite hookBodies_snoc.
  - split; [|done]. exists 1%nat. by rewrite hookBodies_snoc.
Qed.

End WorkerProperties.

(** ** More on the scan and on generateDigest *)

Section MoreDigestWorkerProperties.
Context {date : DateAPI}.

Implicit Types (st : Loop.t) (seg cur : StaySegment.t) (e : RawEvent.t).
Implicit Types (evs events : list RawEvent.t) (segs : list StaySegment.t).

(** *** The dwell transition *)

Lemma loop_body_dwell st e :
  LocationPayload.event (RawEvent.payload e) = "dwell" →
  loop_body st e =
  match deref st with
  | Some (i, cur) =>
      if String.eqb (StaySegment.place_id cur) (LocationPayload.place_id (RawEvent.payload e))
      then Loop.mk (Loop.segments st) (Loop.eventIds st ++ [RawEvent.event_id e])
             (Loop.currentSegment st)
      else Loop.mk
             (Loop.segments st ++
                [openSegment (LocationPayload.place_id (RawEvent.payload e)) (RawEvent.ts e)])
             (Loop.eventIds st ++ [RawEvent.event_id e]) (Some (length (Loop.segments st)))
  | None =>
      Loop.mk
        (Loop.segments st ++
           [openSegment (LocationPayload.place_id (RawEvent.payload e)) (RawEvent.ts e)])
        (Loop.eventIds st ++ [RawEvent.event_id e]) (Some (length (Loop.segments st)))
  end.
Proof.
  intros He. unfold loop_body. rewrite He. simpl.
  destruct (deref st) as [[i cur]|]; [|done]. by destruct (String.eqb _ _).
Qed.

(** X12: a dwell(P, t) that arrives while [currentSegment] refers to a
    segment of place P changes no segment; any other dwell(P, t) (no current
    segment, or one of another place) appends the open segment
    {P, t, null, null} and makes it the current one, and leaves every stored
    segment as it is: unlike an enter, it does not close the segment that was
    current. *)
Theorem dwell_opens_without_closing events pre e post :
  locationEvents events = pre ++ e :: post →
  LocationPayload.event (RawEvent.payload e) = "dwell" →
  let st := loop pre (Loop.mk [] [] None) in
  let st' := loop (pre ++ [e]) (Loop.mk [] [] None) in
  let P := LocationPayload.place_id (RawEvent.payload e) in
  let t := RawEvent.ts e in
  aggregateLocationEvents events =
    Aggregated.mk (Loop.segments (loop post st')) (Loop.eventIds (loop post st'))
  ∧ (∀ i cur, Loop.currentSegment st = Some i → Loop.segments st !! i = Some cur →
       StaySegment.place_id cur = P →
       Loop.segments st' = Loop.segments st ∧ Loop.currentSegment st' = Some i)
  ∧ ((∀ i cur, Loop.currentSegment st = Some i → Loop.segments st !! i = Some cur →
        StaySegment.place_id cur ≠ P) →
       Loop.segments st' = Loop.segments st ++ [StaySegment.mk P t None None]
       ∧ Loop.currentSegment st' = Some (length (Loop.segments st))).
Proof.
  intros E He st st' P t.
  assert (st' = loop_body st e) as Hst' by apply loop_snoc.
  split; [by apply aggregate_split|].
  rewrite Hst', (loop_body_dwell st e He). clear Hst'.
  split.
  - intros i cur Hi Hl HP.
    assert (deref st = Some (i, cur)) as -> by by apply deref_Some.
    fold P. apply String.eqb_eq in HP. by rewrite HP.
  - intros Hne. destruct (deref st) as [[i cur]|] eqn:D; [|done].
    apply deref_Some in D as [Hi Hl]. fold P.
    destruct (String.eqb_spec (StaySegment.place_id cur) P) as [Heq|_]; [|done].
    by destruct (Hne i cur Hi Hl).
Qed.

(** *** Where the segments come from *)

Lemma tracedTo_mono evs evs' seg : evs ⊆ evs' → tracedTo evs seg → tracedTo evs' seg.
Proof.
  intros Hsub [(e & He & Hrest) Hexit]. split.
  - exists e. split; [by apply Hsub|done].
  - intros exit Hx. destruct (Hexit exit Hx) as (e' & He' & Hrest').
    exists e'. split; [by apply Hsub|done].
Qed.

Lemma tracedTo_close evs e cur :
  tracedTo evs cur → e ∈ evs →
  LocationPayload.event (RawEvent.payload e) ∈ ["enter"; "exit"] →
  tracedTo evs (closeSegment cur (RawEvent.ts e)).
Proof.
  intros [Hopen _] He Hkind. split; [done|].
  intros exit [= <-]. by exists e.
Qed.

Lemma tracedTo_new evs e exit_at duration_min :
  e ∈ evs →
  LocationPayload.event (RawEvent.payload e) ∈ ["enter"; "dwell"; "exit"] →
  (∀ exit, exit_at = Some exit →
     exit = RawEvent.ts e ∧ LocationPayload.event (RawEvent.payload e) = "exit") →
  tracedTo evs
    (StaySegment.mk (LocationPayload.place_id (RawEvent.payload e)) (RawEvent.ts e)
       exit_at duration_min).
Proof.
  intros He Hkind Hexit. split; [by exists e|].
  simpl. intros exit Hx. destruct (Hexit exit Hx) as [-> Hk].
  exists e. rewrite Hk. split; [done|]. split; [done|]. repeat constructor.
Qed.

Lemma loop_body_traced seen st e :
  Forall (tracedTo seen) (Loop.segments st) →
  (length (Loop.segments st) ≤ length seen)%nat →
  Forall (tracedTo (seen ++ [e])) (Loop.segments (loop_body st e))
  ∧ (length (Loop.segments (loop_body st e)) ≤ length (seen ++ [e]))%nat.
Proof.
  intros Hsegs Hlen.
  assert (Forall (tracedTo (seen ++ [e])) (Loop.segments st)) as Hsegs'.
  { eapply Forall_impl; [exact Hsegs|]. intros seg. apply tracedTo_mono. intros x Hx. apply elem_of_app. by left. }
  assert (e ∈ seen ++ [e]) as He by (apply elem_of_app; right; constructor).
  assert (∀ i cur, deref st = Some (i, cur) → tracedTo (seen ++ [e]) cur) as Hcur.
  { intros i cur [_ Hl]%deref_Some. by eapply Forall_lookup_1. }
  rewrite length_app. simpl.
  unfold loop_body.
  destruct (String.eqb_spec (LocationPayload.event (RawEvent.payload e)) "enter") as [Hk|_].
  { simpl. rewrite length_app. simpl.
    assert (∀ exit : string, None = Some exit →
              exit = RawEvent.ts e ∧ LocationPayload.event (RawEvent.payload e) = "exit")
      as Hnone by done.
    assert (LocationPayload.event (RawEvent.payload e) ∈ ["enter"; "dwell"; "exit"]) as Hk3
      by (rewrite Hk; repeat constructor).
    assert (LocationPayload.event (RawEvent.payload e) ∈ ["enter"; "exit"]) as Hk2
      by (rewrite Hk; repeat constructor).
    destruct (deref st) as [[i cur]|] eqn:D; [destruct (StaySegment.exit_at cur)|].
    - split; [|lia]. apply Forall_app. split; [done|].
      apply Forall_singleton. by apply tracedTo_new.
    - rewrite length_insert. split; [|lia]. apply Forall_app. split.
      + apply Forall_insert; [done|]. apply tracedTo_close; eauto.
      + apply Forall_singleton. by apply tracedTo_new.
    - split; [|lia]. apply Forall_app. split; [done|].
      apply Forall_singleton. by apply tracedTo_new. }
  destruct (String.eqb_spec (LocationPayload.event (RawEvent.payload e)) "dwell") as [Hk|_].
  { assert (Forall (tracedTo (seen ++ [e]))
              (Loop.segments st ++
                 [openSegment (LocationPayload.place_id (RawEvent.payload e)) (RawEvent.ts e)])
            ∧ (length (Loop.segments st ++
                 [openSegment (LocationPayload.place_id (RawEvent.payload e)) (RawEvent.ts e)])
               ≤ length seen + 1)%nat) as Hnew.
    { rewrite length_app. simpl. split; [|lia]. apply Forall_app. split; [done|].
      apply Forall_singleton. apply tracedTo_new; [done| |done]. rewrite Hk. repeat constructor. }
    destruct (deref st) as [[i cur]|] eqn:D; [destruct (negb _)|]; simpl; try exact Hnew.
    split; [done|lia]. }
  destruct (String.eqb_spec (LocationPayload.event (RawEvent.payload e)) "exit") as [Hk|_].
  { assert (Forall (tracedTo (seen ++ [e]))
              (Loop.segments st ++
                 [StaySegment.mk (LocationPayload.place_id (RawEvent.payload e))
                    (RawEvent.ts e) (Some (RawEvent.ts e)) (Some (Num 0))])
            ∧ (length (Loop.segments st ++
                 [StaySegment.mk (LocationPayload.place_id (RawEvent.payload e))
                    (RawEvent.ts e) (Some (RawEvent.ts e)) (Some (Num 0))])
               ≤ length seen + 1)%nat) as Hnew.
    { rewrite length_app. simpl. split; [|lia]. apply Forall_app. split; [done|].
      apply Forall_singleton. apply tracedTo_new; [done| |].
      - rewrite Hk. repeat constructor.
      - by intros exit [= <-]. }
    destruct (deref st) as [[i cur]|] eqn:D; [destruct (String.eqb _ _)|]; simpl;
      try exact Hnew.
    rewrite length_insert. split; [|lia].
    apply Forall_insert; [done|]. apply tracedTo_close; eauto. rewrite Hk. repeat constructor. }
  simpl. split; [done|lia].
Qed.

Lemma loop_traced evs :
  Forall (tracedTo evs) (Loop.segments (loop evs (Loop.mk [] [] None)))
  ∧ (length (Loop.segments (loop evs (Loop.mk [] [] None))) ≤ length evs)%nat.
Proof.
  induction evs as [|e evs IH] using rev_ind; [by split|].
  destruct IH as [Htraced Hlen]. rewrite loop_snoc. by apply loop_body_traced.
Qed.

(** X13: the segments [aggregateLocationEvents] returns are at most as many
    as the location events of the batch, and each of them is traced to
    location events of the batch: one at its place and [enter_at] that
    opened it, and, if it is closed, an enter or an exit at its [exit_at].
    No segment is invented, none comes from an event of another type or of
    an unknown kind, and a dwell never closes one. *)
Theorem aggregate_segments_traced_to_events events :
  (length (Aggregated.segments (aggregateLocationEvents events))
   ≤ countType "location" events)%nat
  ∧ Forall
      (tracedTo (List.filter (λ e, String.eqb (RawEvent.type e) "location") events))
      (Aggregated.segments (aggregateLocationEvents events)).
Proof.
  rewrite aggregateLocationEvents_loop. simpl.
  destruct (loop_traced (locationEvents events)) as [Htraced Hlen].
  assert (locationEvents events ≡ₚ
            List.filter (λ e, String.eqb (RawEvent.type e) "location") events) as Hperm
    by apply Array_sort_perm.
  split.
  - unfold countType. by rewrite <-Hperm.
  - eapply Forall_impl; [exact Htraced|]. intros seg. apply tracedTo_mono.
    intros e. by rewrite Hperm.
Qed.

(** *** When generateDigest throws *)

Lemma Math_min_NaN (xs : list number) : NaN ∈ xs → Math_min xs = NaN.
Proof.
  unfold Math_min. induction xs as [|x xs IH]; [by intros ?%elem_of_nil|].
  intros [<-|Hin]%elem_of_cons; simpl; [done|].
  rewrite (IH Hin). by destruct x.
Qed.

(** X14: [generateDigest] throws exactly when the batch is not empty and the
    [ts] of one of its events, of whatever type, is not a valid date; what it
    throws is the RangeError of [toISOString]. *)
Theorem generateDigest_throws_on_invalid_ts uuid events :
  (∃ err, generateDigest uuid events = Throw err)
  ↔ ∃ e, e ∈ events ∧ ¬ validDate (RawEvent.ts e).
Proof.
  split.
  - intros [err Hthrow].
    destruct (decide (Forall (λ e, validDate (RawEvent.ts e)) events)) as [Hv|Hnv].
    + exfalso. destruct events as [|e0 es]; [done|].
      destruct (Math_min_valid (e0 :: es)) as (lo & Hlo & (e1 & _ & Ht1) & _); [done..|].
      destruct (Math_max_valid (e0 :: es)) as (hi & Hhi & (e2 & _ & Ht2) & _); [done..|].
      unfold generateDigest in Hthrow.
      change (length (e0 :: es) =? 0)%nat with false in Hthrow. cbv iota zeta in Hthrow.
      change (map (λ e, getTime (RawEvent.ts e)) (e0 :: es))
        with ((λ e, getTime (RawEvent.ts e)) <$> (e0 :: es)) in Hthrow.
      rewrite Hlo, Hhi in Hthrow. unfold Date_ofNumber in Hthrow.
      by rewrite (Date_ofString_clipped _ _ Ht1), (Date_ofString_clipped _ _ Ht2) in Hthrow.
    + apply not_Forall_Exists in Hnv; [|apply _]. apply Exists_exists in Hnv. exact Hnv.
  - intros (e & He & Hinvalid). exists "RangeError: Invalid time value".
    unfold generateDigest.
    destruct events as [|e0 es]; [by apply elem_of_nil in He|].
    change (length (e0 :: es) =? 0)%nat with false. cbv iota zeta.
    rewrite Math_min_NaN; [done|].
    apply list_elem_of_In, in_map_iff. exists e. split; [|by apply list_elem_of_In].
    unfold getTime, validDate in *. destruct (Date_ofString (RawEvent.ts e)); [|done].
    destruct Hinvalid. by eexists.
Qed.

End MoreDigestWorkerProperties.

(** ** UUID_V4_REGEX *)

Lemma matchClass_S cls n (cs : list ascii) rest :
  matchClass cls (S n) cs = Some rest →
  ∃ c cs', cs = c :: cs' ∧ cls c = true ∧ matchClass cls n cs' = Some rest.
Proof.
  simpl. destruct cs as [|c cs']; [done|]. destruct (cls c) eqn:Hc; [|done].
  intros H. by exists c, cs'.
Qed.

Lemma bind_Some_inv {A B} (m : option A) (f : A → option B) b :
  m ≫= f = Some b → ∃ a, m = Some a ∧ f a = Some b.
Proof. destruct m as [a|]; [|done]. intros H. by exists a. Qed.

Lemma isOneOf_dash c : isOneOf "-" c = true → c = "-"%char.
Proof. unfold isOneOf. simpl. rewrite orb_false_r. apply Ascii.eqb_eq. Qed.

Lemma isOneOf_isHex cs c :
  forallb isHex (list_ascii_of_string cs) = true → isOneOf cs c = true → isHex c = true.
Proof.
  unfold isOneOf. rewrite forallb_forall. intros Hall [x [Hx Heq]]%existsb_exists.
  apply Ascii.eqb_eq in Heq as ->. by apply Hall.
Qed.

(** Collects [isHex c = true] for the characters at the positions below [n]
    that [Hout] admits. *)
Ltac hex_upto Hhex Hout n :=
  lazymatch n with
  | O => idtac
  | S ?m => try (pose proof (Hhex m _ eq_refl (Hout m eq_refl))); hex_upto Hhex Hout m
  end.

(** X15: [UUID_V4_REGEX.test(s)] holds exactly for the strings of 36
    characters with a dash at the positions 8, 13, 18 and 23, a version digit
    from 1 to 5 at position 14, a variant character 8, 9, a or b (of either
    case) at position 19 and hexadecimal digits (of either case) everywhere
    else. *)
Theorem UUID_V4_REGEX_test_shape s :
  UUID_V4_REGEX_test s = true
  ↔ String.length s = 36%nat
    ∧ (∀ i, i ∈ [8; 13; 18; 23]%nat → String.get i s = Some "-"%char)
    ∧ (∃ version, String.get 14 s = Some version ∧ isOneOf "12345" version = true)
    ∧ (∃ variant, String.get 19 s = Some variant ∧ isOneOf "89abAB" variant = true)
    ∧ (∀ i c, String.get i s = Some c → i ∉ [8; 13; 14; 18; 19; 23]%nat → isHex c = true).
Proof.
  split.
  - unfold UUID_V4_REGEX_test. simpl foldl.
    assert (s = string_of_list_ascii (list_ascii_of_string s)) as Hs
      by by rewrite string_of_list_ascii_of_string.
    revert Hs. generalize (list_ascii_of_string s). intros l -> H.
    repeat (cbn -[isHex isOneOf] in H;
            match type of H with
            | context [match ?l with [] => _ | _ :: _ => _ end] =>
                is_var l; destruct l as [|? l]; [discriminate H|]
            | context [if ?b then _ else _] => destruct b eqn:?; [|discriminate H]
            end).
    clear H.
    repeat match goal with
           | H : isOneOf "-" _ = true |- _ => apply isOneOf_dash in H as ->
           end.
    split; [done|]. split.
    { intros i Hi. repeat (apply elem_of_cons in Hi as [->|Hi]; [done|]).
      by apply elem_of_nil in Hi. }
    split; [by eexists|]. split; [by eexists|].
    intros i c Hget Hni.
    do 36 (destruct i as [|i];
           [ injection Hget as <-;
             first [ assumption | exfalso; apply Hni; repeat constructor ] |]).
    done.
  - intros (Hlen & Hdash & (version & Hv & Hversion) & (variant & Hr & Hvariant) & Hhex).
    do 36 (destruct s as [|? s]; [discriminate Hlen|]).
    destruct s; [|discriminate Hlen]. clear Hlen.
    injection Hv as ->. injection Hr as ->.
    pose proof (Hdash 8%nat ltac:(repeat constructor)) as [= ->].
    pose proof (Hdash 13%nat ltac:(repeat constructor)) as [= ->].
    pose proof (Hdash 18%nat ltac:(repeat constructor)) as [= ->].
    pose proof (Hdash 23%nat ltac:(repeat constructor)) as [= ->].
    clear Hdash.
    assert (∀ i, (i =? 8)%nat || (i =? 13)%nat || (i =? 14)%nat || (i =? 18)%nat
                 || (i =? 19)%nat || (i =? 23)%nat = false →
                 i ∉ [8; 13; 14; 18; 19; 23]%nat) as Hout.
    { intros i Hi Hin.
      repeat (apply elem_of_cons in Hin as [->|Hin]; [discriminate Hi|]).
      by apply elem_of_nil in Hin. }
    let n := eval cbv in 36%nat in hex_upto Hhex Hout n.
    clear Hhex Hout. unfold UUID_V4_REGEX_test.
    repeat (cbn -[isHex isOneOf];
            match goal with
            | |- context [isOneOf "-" "-"%char] => change (isOneOf "-" "-"%char) with true
            | H : isOneOf ?cs ?c = true |- context [isOneOf ?cs ?c] => rewrite H
            | H : isHex ?c = true |- context [isHex ?c] => rewrite H
            end).
    done.
Qed.

(** ** The onRequest hook of buildApp *)

Lemma substring_all (s : string) : String.substring 0 (String.length s) s = s.
Proof. induction s as [|c s IH]; simpl; [done|]. by rewrite IH. Qed.

Lemma slice_append (p s : string) : slice (String.length p) (p +:+ s) = s.
Proof.
  unfold slice. induction p as [|c p IH]; simpl.
  - rewrite Nat.sub_0_r. apply substring_all.
  - exact IH.
Qed.

Lemma startsWith_split (s p : string) :
  startsWith s p = true → s = p +:+ slice (String.length p) s.
Proof.
  unfold startsWith, slice. revert s. induction p as [|c p IH]; intros s; simpl.
  - intros _. rewrite Nat.sub_0_r, substring_all. reflexivity.
  - destruct s as [|c' s]; [done|]. simpl. destruct (ascii_dec c c') as [->|]; [|done].
    intros Hp. simpl. rewrite (IH s Hp) at 1. reflexivity.
Qed.

Lemma startsWith_append (p s : string) : startsWith (p +:+ s) p = true.
Proof.
  unfold startsWith. induction p as [|c p IH]; simpl; [by destruct s|].
  destruct (ascii_dec c c); [done|congruence].
Qed.

(** X11: the [onRequest] hook lets a request through exactly when its URL
    is "/healthz" or its Authorization header is "Bearer " followed by
    EVENT_API_TOKEN; every other request is answered by the hook itself, with
    status 401. *)
Theorem onRequest_passes_exactly_the_authorized token url authorization :
  (onRequest token url authorization = Continue
   ↔ url = "/healthz" ∨ authorization = Some ("Bearer " +:+ token))
  ∧ (onRequest token url authorization = Continue
     ∨ ∃ message, onRequest token url authorization = Reply 401 message).
Proof.
  unfold onRequest.
  destruct (String.eqb_spec url "/healthz") as [->|Hurl].
  { split; [|by left]. split; [by left|done]. }
  destruct authorization as [authHeader|]; [|split; [|by eauto]; naive_solver].
  destruct (String.eqb_spec authHeader "") as [->|Hne].
  { simpl. split; [|by eauto]. split; [done|]. by intros [?|[=]]. }
  destruct (startsWith authHeader "Bearer ") eqn:Hprefix; simpl.
  - apply startsWith_split in Hprefix. change (String.length "Bearer ") with 7%nat in Hprefix.
    destruct (String.eqb (slice 7 authHeader) token) eqn:Htoken; simpl.
    + apply String.eqb_eq in Htoken. split; [|by left]. split; [|done].
      intros _. right. by rewrite Hprefix, Htoken.
    + apply String.eqb_neq in Htoken. split; [|by eauto]. split; [done|].
      intros [?|[= Heq]]; [done|].
      exfalso. apply Htoken. rewrite Heq. apply (slice_append "Bearer ").
  - split; [|by eauto]. split; [done|]. intros [?|[= Heq]]; [done|].
    by rewrite Heq, (startsWith_append "Bearer ") in Hprefix.
Qed.

(** ** Requests the handler of app.js does not answer *)

Section HandlerRejection.
Context {date : DateAPI}.

Lemma validateEventEnvelope_throws body err :
  validateEventEnvelope body = Throw err
  ↔ ∃ envelope event_id,
      body = JObject envelope ∧ ownProperty "event_id" envelope = Some event_id
      ∧ ToString event_id = Throw err.
Proof.
  split.
  - destruct body as [| [] | n | s | items | envelope]; try done.
    + unfold validateEventEnvelope. simpl. by destruct (n =? 0).
    + unfold validateEventEnvelope. simpl. by destruct (String.eqb s "").
    + unfold validateEventEnvelope. simpl.
      destruct (ownProperty "event_id" envelope) as [event_id|] eqn:Hid; [|done].
      destruct event_id as [| b | n | s | items | fields]; try done.
      * simpl. destruct b; done.
      * simpl nullish. destruct (ToString (JArray items)) eqn:Hs; [done|].
        intros [= <-]. by exists envelope, (JArray items).
      * simpl nullish. destruct (ToString (JObject fields)) eqn:Hs; [done|].
        intros [= <-]. by exists envelope, (JObject fields).
  - intros (envelope & event_id & -> & Hid & Hthrow).
    unfold validateEventEnvelope. simpl. rewrite Hid.
    destruct event_id; simpl nullish; try (by rewrite Hthrow); done.
Qed.

(** X16: the promise of the handler is rejected, so that no reply is written,
    exactly for an authorized [POST /events] whose body is an object with an
    [event_id] that cannot be converted to a string (an object with an own
    [toString] property, or an array that holds one); the error is the
    TypeError of that conversion, and the repository is not touched. *)
Theorem handler_rejects_exactly {R} (repository : Repository R) token now req state err :
  ((handler repository token now req state).1 = Rejected err
   ↔ Request.method req = "POST" ∧ Request.url req = "/events"
     ∧ Request.authorization req = Some ("Bearer " +:+ token)
     ∧ ∃ envelope event_id,
         readJsonBody (Request.body req) = Normal (JObject envelope)
         ∧ ownProperty "event_id" envelope = Some event_id
         ∧ ToString event_id = Throw err)
  ∧ ((handler repository token now req state).1 = Rejected err →
     (handler repository token now req state).2 = state).
Proof.
  unfold handler.
  destruct (String.eqb (Request.method req) "GET" && String.eqb (Request.url req) "/healthz")
    eqn:Hhealth.
  { apply andb_true_iff in Hhealth as [Hget%String.eqb_eq _].
    destruct (healthcheck repository state) as [[]]; simpl; (split; [|done]);
      (split; [done|]); intros (Hpost & _); congruence. }
  destruct (String.eqb_spec (Request.method req) "POST") as [Hm|Hm]; simpl;
    [|split; [|done]; split; [done|]; by intros (? & _)].
  destruct (String.eqb_spec (Request.url req) "/events") as [Hu|Hu]; simpl;
    [|split; [|done]; split; [done|]; by intros (_ & ? & _)].
  destruct (String.eqb (default "" (Request.authorization req)) ("Bearer " +:+ token))
    eqn:Hauth; simpl.
  2:{ split; [|done]. split; [done|]. intros (_ & _ & Ha & _).
      rewrite Ha in Hauth. simpl in Hauth. by rewrite String.eqb_refl in Hauth. }
  apply String.eqb_eq in Hauth.
  assert (Request.authorization req = Some ("Bearer " +:+ token)) as Ha.
  { destruct (Request.authorization req); simpl in Hauth; [by rewrite Hauth|done]. }
  destruct (readJsonBody (Request.body req)) as [body|] eqn:Hbody; simpl.
  2:{ split; [|done]. split; [done|]. by intros (_ & _ & _ & ? & ? & ? & _). }
  destruct (validateEventEnvelope body) as [errors|err'] eqn:Hval.
  - assert (¬ ∃ envelope event_id, Normal body = Normal (JObject envelope)
                ∧ ownProperty "event_id" envelope = Some event_id
                ∧ ToString event_id = Throw err) as Hno.
    { intros (envelope & event_id & [= ->] & Hid & Hthrow).
      assert (validateEventEnvelope (JObject envelope) = Throw err) as Hval'
        by (apply validateEventEnvelope_throws; eauto).
      congruence. }
    destruct (0 <? length errors)%nat; simpl.
    { split; [|done]. split; [done|]. by intros (_ & _ & _ & ?). }
    destruct body; simpl; try (split; [|done]; split; [done|]; by intros (_ & _ & _ & ?)).
    destruct (insertEvent repository now fields state) as [[]]; simpl;
      (split; [|done]); (split; [done|]); by intros (_ & _ & _ & ?).
  - simpl. split; [|done]. split.
    + intros [= ->]. repeat split; try done.
      apply validateEventEnvelope_throws in Hval as (envelope & event_id & -> & ? & ?).
      by exists envelope, event_id.
    + intros (_ & _ & _ & envelope & event_id & [= ->] & Hid & Hthrow).
      assert (validateEventEnvelope (JObject envelope) = Throw err) as Hval'
        by (apply validateEventEnvelope_throws; eauto).
      congruence.
Qed.

End HandlerRejection.

(** ** Batches without a location event *)

Section NoLocationEvents.
Context {date : DateAPI}.

(** X17: a batch that is not empty and holds no location event (all
    timestamps valid) still yields a digest: it has no segment, its message
    starts with "[LocationDigest] イベントなし", and its [event_ids] are the
    ids of the whole batch, so that these events are marked processed. *)
Theorem generateDigest_without_location_events uuid events :
  events ≠ [] →
  Forall (λ e, validDate (RawEvent.ts e)) events →
  Forall (λ e, RawEvent.type e ≠ "location") events →
  ∃ digest,
    generateDigest uuid events = Normal (Some digest)
    ∧ DigestResult.digest_id digest = uuid
    ∧ DigestPayload.segments (DigestResult.payload digest) = []
    ∧ DigestPayload.event_ids (DigestResult.payload digest) = map RawEvent.event_id events
    ∧ String.prefix "[LocationDigest] イベントなし" (DigestResult.message digest) = true.
Proof.
  intros Hne Hv Hno.
  assert (List.filter (λ e, String.eqb (RawEvent.type e) "location") events = []) as Hfilter.
  { clear Hne Hv. induction Hno as [|e es He Hno IH]; [done|]. simpl.
    apply String.eqb_neq in He. by rewrite He. }
  assert (aggregateLocationEvents events = Aggregated.mk [] []) as Hagg.
  { unfold aggregateLocationEvents, locationEvents. by rewrite Hfilter. }
  destruct (Math_min_valid events Hne Hv) as (lo & Hlo & (e1 & _ & Ht1) & _).
  destruct (Math_max_valid events Hne Hv) as (hi & Hhi & (e2 & _ & Ht2) & _).
  unfold generateDigest.
  destruct events as [|e0 es]; [done|].
  change (length (e0 :: es) =? 0)%nat with false. cbv iota zeta.
  change (map (λ e, getTime (RawEvent.ts e)) (e0 :: es))
    with ((λ e, getTime (RawEvent.ts e)) <$> (e0 :: es)).
  rewrite Hlo, Hhi, Hagg. unfold Date_ofNumber.
  rewrite (Date_ofString_clipped _ _ Ht1), (Date_ofString_clipped _ _ Ht2). simpl.
  eexists. split; [done|]. simpl. repeat split.
  match goal with
  | |- context [if ?b then _ else _] => destruct b
  end; [apply prefix_append|done].
Qed.

End NoLocationEvents.

(** ** The digests endpoints *)

Section DigestsProperties.
Context {date : DateAPI}.
Variable zod_uuid : string → bool.
Variable zod_datetime : string → bool.

Implicit Types (table : gmap string DigestRow.t) (row : DigestRow.t).

(** X18: [POST /digests] keeps the first digest stored under a [digest_id]:
    a successful call answers [duplicate] = true exactly when the id was
    already stored, and then leaves the table as it is; otherwise it stores
    the digest as unsent and touches no other row.  Posting any body with the
    same [digest_id] again is answered [duplicate: true] and changes
    nothing. *)
Theorem postDigests_first_write_wins body now table digest_id duplicate table1 :
  postDigests zod_uuid body now table = (Saved digest_id duplicate, table1) →
  (duplicate = true ↔ is_Some (table !! digest_id))
  ∧ (duplicate = true → table1 = table)
  ∧ (duplicate = false →
     ∃ digest, digestSchema zod_uuid body = Some digest
       ∧ table1 !! digest_id =
           Some (DigestRow.mk (ParsedDigest.payload digest) (ParsedDigest.message digest)
                   now None)
       ∧ ∀ other, other ≠ digest_id → table1 !! other = table !! other)
  ∧ (∀ body2 now2 digest2,
       digestSchema zod_uuid body2 = Some digest2 →
       ParsedDigest.digest_id digest2 = digest_id →
       postDigests zod_uuid body2 now2 table1 = (Saved digest_id true, table1)).
Proof.
  unfold postDigests. destruct (digestSchema zod_uuid body) as [digest|] eqn:Hparse; [|done].
  unfold createMany.
  destruct (table !! ParsedDigest.digest_id digest) as [row|] eqn:Hrow; simpl;
    intros [= <- <- <-].
  - split; [by rewrite Hrow|]. split; [done|]. split; [done|].
    intros body2 now2 digest2 -> ->. by rewrite Hrow.
  - split; [rewrite Hrow; split; [done|by intros [? ?]]|]. split; [done|]. split.
    + intros _. exists digest. split; [done|]. split; [apply lookup_insert_eq|].
      intros other Hother. by apply lookup_insert_ne.
    + intros body2 now2 digest2 -> ->. by rewrite lookup_insert_eq.
Qed.

(** X19: [POST /digests/:digestId/sent] changes the table only when it
    answers 200; then the digest it names exists, and its [sent_at], and that
    of no other digest, is set to the instant that the [sent_at] string of
    the body denotes, or to the clock when the body has no [sent_at] (or an
    empty one), while its other columns stay.  Whether the digest was sent
    before plays no role: an earlier [sent_at] is overwritten. *)
Theorem postDigestSent_marks_that_digest digestId body now table :
  let result := postDigestSent zod_uuid zod_datetime digestId body now table in
  let sent_at := getProp (nullish body (JObject [])) "sent_at" in
  (result.2 = table ∧ ∀ id sent, result.1 ≠ Normal (MarkedSent id sent))
  ∨ (∃ id row t,
       digestId = Some id
       ∧ zod_uuid id = true
       ∧ table !! id = Some row
       ∧ result.1 = Normal (MarkedSent id (Date_isoString t))
       ∧ (sent_at = None ∧ t = now
          ∨ ∃ given, sent_at = Some (JString given) ∧ zod_datetime given = true
              ∧ (if String.eqb given "" then t = now else Date_ofString given = Some t))
       ∧ result.2 =
           <[id := DigestRow.mk (DigestRow.payload row) (DigestRow.message row)
                     (DigestRow.createdAt row) (Some t)]> table
       ∧ ∀ other, other ≠ id → result.2 !! other = table !! other).
Proof.
  cbv zeta. unfold postDigestSent.
  destruct digestId as [id|]; [destruct (zod_uuid id) eqn:Hid|]; try (by left).
  destruct (markSentSchema zod_datetime (nullish body (JObject []))) as [sent_at|] eqn:Hbody;
    [|by left].
  destruct (table !! id) as [row|] eqn:Hrow; [|by left].
  destruct (if truthy sent_at then _ else _) as [t|] eqn:Ht; [|by left].
  right. exists id, row, t. simpl.
  split; [done|]. split; [done|]. split; [done|]. split; [done|].
  split; [|split; [done|by intros other Hother; apply lookup_insert_ne]].
  unfold markSentSchema in Hbody.
  destruct (nullish body (JObject [])) as [| | | | |fields]; try done. simpl.
  destruct (ownProperty "sent_at" fields) as [[| | |given| |]|]; try done.
  - right. exists given. destruct (zod_datetime given); [|done].
    injection Hbody as <-. split; [done|]. split; [done|].
    simpl in Ht. destruct (String.eqb given ""); simpl in Ht; [congruence|done].
  - left. injection Hbody as <-. simpl in Ht. split; [done|congruence].
Qed.

End DigestsProperties.

(** ** The object stored by the in-memory repository *)

Section StoredEvent.
Context {date : DateAPI}.

Lemma ownProperty_setField key v fields k :
  ownProperty k (setField key v fields) =
  if String.eqb key k then Some v else ownProperty k fields.
Proof.
  induction fields as [|[k' old] fields IH]; simpl.
  - by destruct (String.eqb key k).
  - destruct (String.eqb_spec k' key) as [->|Hne]; simpl.
    + by destruct (String.eqb key k).
    + destruct (String.eqb_spec k' k) as [->|Hne'].
      * assert (String.eqb key k = false) as -> by (apply String.eqb_neq; congruence).
        done.
      * exact IH.
Qed.

(** X20: the event stored for an envelope has [processed_at] null and
    [created_at] the clock of the insertion, whatever the envelope says about
    these two keys, and every other property as the envelope has it; a stored
    event is read back under its [event_id] right after the insertion. *)
Theorem insertEvent_stores_the_envelope now envelope id store :
  ownProperty "event_id" envelope = Some (JString id) →
  Map_has store (Some (JString id)) = false →
  let stored := storedEvent now envelope in
  let store1 := (InMemory_insertEvent now envelope store).2 in
  (Some (JString id), stored) ∈ store1
  ∧ Map_has store1 (Some (JString id)) = true
  ∧ getProp stored "processed_at" = Some JNull
  ∧ getProp stored "created_at" = Some (JString (Date_isoString now))
  ∧ (∀ key, key ≠ "processed_at" → key ≠ "created_at" →
       getProp stored key = ownProperty key envelope).
Proof.
  intros Hid Hfresh stored store1.
  assert (store1 = store ++ [(Some (JString id), stored)]) as ->.
  { unfold store1, InMemory_insertEvent. rewrite Hid, Hfresh. simpl.
    by apply Map_set_fresh. }
  split; [apply elem_of_app; right; constructor|].
  split; [rewrite Map_has_app; simpl; by rewrite String.eqb_refl, orb_true_r|].
  unfold stored, storedEvent. simpl. rewrite !ownProperty_setField. simpl.
  split; [done|]. split; [done|].
  intros key Hp Hc. rewrite !ownProperty_setField.
  apply not_eq_sym, String.eqb_neq in Hp, Hc. by rewrite Hp, Hc.
Qed.

End StoredEvent.

(** * The properties at concrete inputs *)

Section Witnesses.
Import Samples.
#[local] Existing Instance IsoDate.api.

Lemma generateDigest_event_ids_and_period_witness :
  Forall (λ e, validDate (RawEvent.ts e)) mixed
  ∧ ∃ digest,
      generateDigest uuid mixed = Normal (Some digest)
      ∧ DigestPayload.event_ids (DigestResult.payload digest) = ["ggg-1"; "ggg-2"; "ggg-3"]
      ∧ DigestPayload.period_start (DigestResult.payload digest) = "2025-02-23T01:00:00.000Z"
      ∧ DigestPayload.period_end (DigestResult.payload digest) = "2025-02-23T01:10:00.000Z".
Proof.
  assert (Forall (λ e, validDate (RawEvent.ts e)) mixed) as Hv.
  { repeat constructor; by eexists. }
  split; [exact Hv|].
  destruct (generateDigest_event_ids_and_period uuid mixed Hv) as [_ Hd].
  destruct Hd as (digest & lo & hi & Hg & Hids & Hs & He & _); [done|].
  exists digest. vm_compute in Hg. injection Hg as <-. by vm_compute.
Defined.

(** C2 as stated fails: after [enter home; exit office] the open segment is
    followed by an instant segment, and after [enter home; dwell office] two
    segments are open. *)
Lemma at_most_one_open_counterexample :
  Aggregated.segments (aggregateLocationEvents unmatchedExit) =
    [StaySegment.mk "home" "2025-02-23T08:00:00+09:00" None None;
     StaySegment.mk "office" "2025-02-23T09:00:00+09:00" (Some "2025-02-23T09:00:00+09:00")
       (Some (Num 0))]
  ∧ at_most_one_open_and_last (Aggregated.segments (aggregateLocationEvents unmatchedExit))
    = false
  ∧ Aggregated.segments (aggregateLocationEvents dwellElsewhere) =
      [StaySegment.mk "home" "2025-02-23T08:00:00+09:00" None None;
       StaySegment.mk "office" "2025-02-23T09:00:00+09:00" None None]
  ∧ at_most_one_open_and_last (Aggregated.segments (aggregateLocationEvents dwellElsewhere))
    = false.
Proof. by vm_compute. Qed.

Lemma at_most_one_open_then_instants_witness :
  noDwellSwitch None (locationEvents unmatchedExit) = true
  ∧ ∀ i j s1 s2,
      Aggregated.segments (aggregateLocationEvents unmatchedExit) !! i = Some s1 →
      StaySegment.exit_at s1 = None → (i < j)%nat →
      Aggregated.segments (aggregateLocationEvents unmatchedExit) !! j = Some s2 →
      isInstant s2.
Proof.
  assert (noDwellSwitch None (locationEvents unmatchedExit) = true) as Hnd by by vm_compute.
  split; [exact Hnd|].
  exact (proj2 (at_most_one_open_then_instants unmatchedExit Hnd)).
Defined.



Lemma enter_closes_open_then_appends_witness :
  locationEvents reentry = [enterOffice10] ++ enterOffice1030 :: []
  ∧ LocationPayload.event (RawEvent.payload enterOffice1030) = "enter"
  ∧ Loop.segments (loop ([enterOffice10] ++ [enterOffice1030]) (Loop.mk [] [] None)) !! 0%nat =
      Some (StaySegment.mk "office" "2025-02-23T10:00:00+09:00"
              (Some "2025-02-23T10:30:00+09:00") (Some (Num 30)))
  ∧ Loop.segments (loop ([enterOffice10] ++ [enterOffice1030]) (Loop.mk [] [] None)) !! 1%nat =
      Some (StaySegment.mk "office" "2025-02-23T10:30:00+09:00" None None)
  ∧ Loop.currentSegment (loop ([enterOffice10] ++ [enterOffice1030]) (Loop.mk [] [] None)) =
      Some 1%nat.
Proof.
  assert (locationEvents reentry = [enterOffice10] ++ enterOffice1030 :: []) as Hl
    by by vm_compute.
  assert (LocationPayload.event (RawEvent.payload enterOffice1030) = "enter") as He by done.
  split; [exact Hl|]. split; [exact He|].
  destruct (enter_closes_open_then_appends reentry [enterOffice10] enterOffice1030 [] Hl He)
    as (_ & Hclose & _ & Hnew & _ & Hcur).
  destruct (Hclose 0%nat) as (cur & Hcur0 & _ & Hclosed); [by vm_compute|].
  vm_compute in Hcur0. injection Hcur0 as <-.
  split; [|split]; [|exact Hnew|exact Hcur].
  rewrite Hclosed. by vm_compute.
Defined.

Lemma exit_closes_matching_or_appends_instant_witness :
  locationEvents (commute ++ [exitOffice9]) =
    [enterHome8] ++ exitHome9 :: [exitOffice9; enterOffice930; exitOffice18]
  ∧ LocationPayload.event (RawEvent.payload exitHome9) = "exit"
  ∧ Loop.segments (loop ([enterHome8] ++ [exitHome9]) (Loop.mk [] [] None)) =
      [StaySegment.mk "home" "2025-02-23T08:00:00+09:00" (Some "2025-02-23T09:00:00+09:00")
         (Some (Num 60))]
  ∧ Loop.currentSegment (loop ([enterHome8] ++ [exitHome9]) (Loop.mk [] [] None)) = None.
Proof.
  assert (locationEvents (commute ++ [exitOffice9]) =
            [enterHome8] ++ exitHome9 :: [exitOffice9; enterOffice930; exitOffice18]) as Hl
    by by vm_compute.
  assert (LocationPayload.event (RawEvent.payload exitHome9) = "exit") as He by done.
  split; [exact Hl|]. split; [exact He|].
  destruct (exit_closes_matching_or_appends_instant _ _ _ _ Hl He) as (_ & Hmatch & _).
  destruct (Hmatch 0%nat (StaySegment.mk "home" "2025-02-23T08:00:00+09:00" None None))
    as [Hsegs Hcur]; [by vm_compute..|].
  split; [|exact Hcur]. rewrite Hsegs. by vm_compute.
Defined.

(** C6 as stated fails: the segment of [sameInstant] has a close of zero span
    (and [duration_min] 0); the specification renders it as an arrival, the
    code as a range. *)
Lemma buildDigestMessage_zero_span_counterexample :
  Aggregated.segments (aggregateLocationEvents sameInstant) = [zeroSpanSegment]
  ∧ getTime "2025-02-23T01:00:00.000Z" = getTime "2025-02-23T10:00:00+09:00"
  ∧ hasNonZeroSpanClose zeroSpanSegment = false
  ∧ spec_buildDigestMessage [zeroSpanSegment] = "[LocationDigest] 10:00 office到着"
  ∧ buildDigestMessage [zeroSpanSegment] = "[LocationDigest] 10:00-10:00 office".
Proof. by vm_compute. Qed.

(** C7: the validator accepts an [event_id] that is an array holding a UUID
    string (the regular expression is tested against the value converted to a
    string), and it throws a TypeError on an [event_id] object that has an own
    property [toString]. *)
Theorem validateEventEnvelope_event_id_coercion :
  validateEventEnvelope arrayIdEnvelope = Normal []
  ∧ validateEventEnvelope shadowedToStringEnvelope = Throw typeError
  ∧ validateEventEnvelope (envelope (JString uuid)) = Normal []
  ∧ validateEventEnvelope (envelope (JString "bad-uuid")) =
      Normal ["event_id must be a valid UUID."].
Proof. by vm_compute. Qed.

Lemma markProcessed_idempotent_witness :
  postEventsProcess UUID_V4_REGEX_test processBody 1740276000000 table =
    (Processed 1 "2025-02-23T02:00:00.000Z",
     [EventRow.mk uuid "location" 1740274200000 (Some 1740276000000);
      EventRow.mk uuid2 "email" 1740274500000 (Some 1740275000000);
      EventRow.mk uuid3 "todo" 1740274800000 None])
  ∧ postEventsProcess UUID_V4_REGEX_test processBody 1740276300000
      [EventRow.mk uuid "location" 1740274200000 (Some 1740276000000);
       EventRow.mk uuid2 "email" 1740274500000 (Some 1740275000000);
       EventRow.mk uuid3 "todo" 1740274800000 None] =
    (Processed 0 "2025-02-23T02:05:00.000Z",
     [EventRow.mk uuid "location" 1740274200000 (Some 1740276000000);
      EventRow.mk uuid2 "email" 1740274500000 (Some 1740275000000);
      EventRow.mk uuid3 "todo" 1740274800000 None]).
Proof.
  assert (postEventsProcess UUID_V4_REGEX_test processBody 1740276000000 table =
    (Processed 1 "2025-02-23T02:00:00.000Z",
     [EventRow.mk uuid "location" 1740274200000 (Some 1740276000000);
      EventRow.mk uuid2 "email" 1740274500000 (Some 1740275000000);
      EventRow.mk uuid3 "todo" 1740274800000 None])) as Hfirst by by vm_compute.
  split; [exact Hfirst|].
  destruct (markProcessed_idempotent UUID_V4_REGEX_test processBody
              1740276000000 1740276300000 _ _ _ _ Hfirst) as (_ & _ & _ & Hsecond).
  rewrite Hsecond. by vm_compute.
Defined.

Lemma aggregate_order_independent_witness :
  commute ≡ₚ commuteShuffled
  ∧ Forall (λ e, RawEvent.type e = "location" → validDate (RawEvent.ts e)) commute
  ∧ NoDup ((λ e, Date_ofString (RawEvent.ts e)) <$>
             List.filter (λ e, String.eqb (RawEvent.type e) "location") commute)
  ∧ aggregateLocationEvents commute = aggregateLocationEvents commuteShuffled.
Proof.
  assert (commute ≡ₚ commuteShuffled) as Hp.
  { unfold commute, commuteShuffled.
    transitivity (enterHome8 :: rev [exitHome9; enterOffice930; exitOffice18]).
    - apply Permutation_skip, Permutation_rev.
    - apply Permutation_swap. }
  assert (Forall (λ e, RawEvent.type e = "location" → validDate (RawEvent.ts e)) commute)
    as Hv.
  { repeat constructor; intros _; by eexists. }
  assert (NoDup ((λ e, Date_ofString (RawEvent.ts e)) <$>
             List.filter (λ e, String.eqb (RawEvent.type e) "location") commute)) as Hnd.
  { vm_compute. repeat (constructor; [by rewrite ?elem_of_cons, ?elem_of_nil; intros H; intuition discriminate|]). constructor. }
  split; [exact Hp|]. split; [exact Hv|]. split; [exact Hnd|].
  exact (aggregate_order_independent commute commuteShuffled Hp Hv Hnd).
Defined.

Lemma buildDigestMessage_meets_spec_witness :
  Forall canonicalSegment
    [StaySegment.mk "home" "2025-02-23T08:00:00+09:00" (Some "2025-02-23T09:00:00+09:00")
       (Some (Num 60));
     StaySegment.mk "office" "2025-02-23T09:30:00+09:00" None None]
  ∧ spec_buildDigestMessage
      [StaySegment.mk "home" "2025-02-23T08:00:00+09:00" (Some "2025-02-23T09:00:00+09:00")
         (Some (Num 60));
       StaySegment.mk "office" "2025-02-23T09:30:00+09:00" None None] =
    "[LocationDigest] 08:00-09:00 home → 09:30 office到着".
Proof.
  assert (Forall canonicalSegment
    [StaySegment.mk "home" "2025-02-23T08:00:00+09:00" (Some "2025-02-23T09:00:00+09:00")
       (Some (Num 60));
     StaySegment.mk "office" "2025-02-23T09:30:00+09:00" None None]) as Hc.
  { apply Forall_cons. split; [|apply Forall_cons; split; [done|constructor]].
    intros exit Hexit. injection Hexit as <-. split; [done|].
    exists 1740265200000, 1740268800000. by vm_compute. }
  split; [exact Hc|].
  rewrite <-(buildDigestMessage_meets_spec _ Hc). by vm_compute.
Defined.

Lemma validateEventEnvelope_exact_witness :
  match getProp (envelope (JString uuid)) "event_id" with
  | None | Some JNull | Some (JString _) => True
  | _ => False
  end
  ∧ envelopeRulesPass (envelope (JString uuid)).
Proof.
  assert (match getProp (envelope (JString uuid)) "event_id" with
          | None | Some JNull | Some (JString _) => True
          | _ => False
          end) as Hid by exact I.
  split; [exact Hid|].
  destruct (validateEventEnvelope_exact (envelope (JString uuid)) Hid)
    as (errors & Hv & Hiff).
  apply Hiff. vm_compute in Hv. by injection Hv as <-.
Defined.


Lemma handler_deduplicates_witness :
  ∃ store1,
    handler InMemoryEventRepository "secret" 1740274200000
      (postEvent (envelope (JString uuid))) [] =
      (Replied 200 (JObject [("ok", JBool true); ("duplicate", JBool false)]), store1)
    ∧ handler InMemoryEventRepository "secret" 1740274260000
        (postEvent (envelope (JString uuid))) store1 =
        (Replied 200 (JObject [("ok", JBool true); ("duplicate", JBool true)]), store1).
Proof.
  destruct (handler_deduplicates "secret" 1740274200000 1740274260000
              (postEvent (envelope (JString uuid))) (envelopeFields (JString uuid)) uuid [])
    as (store1 & H1 & H2); try reflexivity.
  by exists store1.
Defined.

Lemma handler_does_not_deduplicate_array_ids_witness :
  validateEventEnvelope arrayIdEnvelope = Normal []
  ∧ ∃ store1 stored1 stored2,
      handler InMemoryEventRepository "secret" 1740274200000 (postEvent arrayIdEnvelope) [] =
        (Replied 200 (JObject [("ok", JBool true); ("duplicate", JBool false)]), store1)
      ∧ handler InMemoryEventRepository "secret" 1740274260000 (postEvent arrayIdEnvelope)
          store1 =
          (Replied 200 (JObject [("ok", JBool true); ("duplicate", JBool false)]),
           [(Some (JArray [JString uuid]), stored1); (Some (JArray [JString uuid]), stored2)]).
Proof.
  split; [reflexivity|].
  eexists _, _, _. split.
  - apply (handler_does_not_deduplicate_array_ids "secret" 1740274200000
             (postEvent arrayIdEnvelope) (envelopeFields (JArray [JString uuid]))
             [JString uuid] []); reflexivity.
  - etrans;
      [apply (handler_does_not_deduplicate_array_ids "secret" 1740274260000
                (postEvent arrayIdEnvelope) (envelopeFields (JArray [JString uuid]))
                [JString uuid]); reflexivity|].
    reflexivity.
Defined.

Lemma main_delivers_only_after_persisting_witness :
  (∃ res,
     (main _ scriptedFetch constantUUID workerEnv (happyRun, [])).2.2 !! 3%nat =
       Some (hookRequest "http://sink.test/hooks/agent" "hook-secret"
               (OpenClawPayload.mk
                  ("[digest:" +:+ uuid +:+ "] [LocationDigest] 08:00-09:00 home → 09:30-18:00 office")
                  "EventDigest" "now" true "last"), res))
  ∧ persisted "http://api.test" (main _ scriptedFetch constantUUID workerEnv (happyRun, [])).2.2
  ∧ (3 ≤ 3)%nat.
Proof.
  assert ((main _ scriptedFetch constantUUID workerEnv (happyRun, [])).2.2 !! 3%nat =
       Some (hookRequest "http://sink.test/hooks/agent" "hook-secret"
               (OpenClawPayload.mk
                  ("[digest:" +:+ uuid +:+ "] [LocationDigest] 08:00-09:00 home → 09:30-18:00 office")
                  "EventDigest" "now" true "last"), answer true 200 OtherJson)) as Hi
    by by vm_compute.
  split; [by eexists|].
  exact (main_delivers_only_after_persisting _ scriptedFetch constantUUID workerEnv happyRun
           3 _ _ _ Hi eq_refl).
Defined.


Lemma dwell_opens_without_closing_witness :
  locationEvents dwellElsewhere = [enterHome8] ++ dwellOffice9 :: []
  ∧ LocationPayload.event (RawEvent.payload dwellOffice9) = "dwell"
  ∧ Loop.segments (loop ([enterHome8] ++ [dwellOffice9]) (Loop.mk [] [] None)) =
      [StaySegment.mk "home" "2025-02-23T08:00:00+09:00" None None;
       StaySegment.mk "office" "2025-02-23T09:00:00+09:00" None None]
  ∧ Loop.currentSegment (loop ([enterHome8] ++ [dwellOffice9]) (Loop.mk [] [] None)) =
      Some 1%nat.
Proof.
  assert (locationEvents dwellElsewhere = [enterHome8] ++ dwellOffice9 :: []) as E
    by by vm_compute.
  split; [exact E|]. split; [done|].
  destruct (dwell_opens_without_closing dwellElsewhere [enterHome8] dwellOffice9 [] E eq_refl)
    as (_ & _ & Hother).
  destruct Hother as [Hsegs Hcur].
  - intros i cur [= <-] [= <-]. done.
  - rewrite Hsegs, Hcur. done.
Defined.


Lemma generateDigest_without_location_events_witness :
  ∃ digest,
    generateDigest uuid noLocation = Normal (Some digest)
    ∧ DigestPayload.segments (DigestResult.payload digest) = []
    ∧ DigestPayload.event_ids (DigestResult.payload digest) = ["hhh-1"; "hhh-2"]
    ∧ DigestResult.message digest = "[LocationDigest] イベントなし | メール1件".
Proof.
  destruct (generateDigest_without_location_events uuid noLocation)
    as (digest & Hd & _ & Hsegs & Hids & _).
  - done.
  - repeat constructor; by eexists.
  - repeat constructor; done.
  - exists digest. split; [exact Hd|]. split; [exact Hsegs|]. split; [exact Hids|].
    vm_compute in Hd. by injection Hd as <-.
Defined.


Lemma postDigests_first_write_wins_witness :
  ∃ table1,
    postDigests UUID_V4_REGEX_test digestBody 1740276000000 ∅ = (Saved uuid false, table1)
    ∧ table1 !! uuid =
        Some (DigestRow.mk [("type", JString "location")]
                (Some "[LocationDigest] イベントなし") 1740276000000 None)
    ∧ postDigests UUID_V4_REGEX_test digestBody2 1740276300000 table1 = (Saved uuid true, table1).
Proof.
  eexists.
  assert (postDigests UUID_V4_REGEX_test digestBody 1740276000000 ∅ =
            (Saved uuid false,
             (postDigests UUID_V4_REGEX_test digestBody 1740276000000 ∅).2)) as Hfirst
    by by vm_compute.
  split; [exact Hfirst|].
  destruct (postDigests_first_write_wins UUID_V4_REGEX_test _ _ _ _ _ _ Hfirst)
    as (_ & _ & Hnew & Hagain).
  split.
  - destruct (Hnew eq_refl) as (digest & Hparse & Hrow & _).
    rewrite Hrow. vm_compute in Hparse. by injection Hparse as <-.
  - by apply (Hagain digestBody2 1740276300000 (ParsedDigest.mk uuid [] (Some "another message"))).
Defined.


Lemma insertEvent_stores_the_envelope_witness :
  getProp (storedEvent 1740274200000
             (envelopeFields (JString uuid) ++ [("processed_at", JString "2020-01-01T00:00:00Z")]))
    "processed_at" = Some JNull
  ∧ getProp (storedEvent 1740274200000
               (envelopeFields (JString uuid) ++ [("processed_at", JString "2020-01-01T00:00:00Z")]))
      "created_at" = Some (JString "2025-02-23T01:30:00.000Z")
  ∧ getProp (storedEvent 1740274200000
               (envelopeFields (JString uuid) ++ [("processed_at", JString "2020-01-01T00:00:00Z")]))
      "type" = Some (JString "location").
Proof.
  destruct (insertEvent_stores_the_envelope 1740274200000
              (envelopeFields (JString uuid) ++ [("processed_at", JString "2020-01-01T00:00:00Z")])
              uuid [] eq_refl eq_refl) as (_ & _ & Hp & Hc & Hother).
  split; [exact Hp|]. split; [exact Hc|]. by rewrite Hother.
Defined.

End Witnesses.
